(** * Box-overlap losses of [tex/models/structure/losses.py]

    A shallow embedding of the loss functions [iou_loss],
    [distance_iou_loss], [complete_iou_loss], [tile_iou_loss],
    [batch_mean] and [structure_loss], and the properties of the
    specification that are stated about them.

    Numbers.  The tensors of the source hold floating-point numbers.  They
    are modelled here as real numbers extended with the three special values
    of IEEE arithmetic ([+inf], [-inf], [NaN]); the arithmetic follows the
    IEEE rules for the special values and is exact on finite values
    (rounding, overflow and the sign of zero are not modelled: a zero
    divisor counts as [+0]).  Where rounding decides, [tile_iou_loss] is
    embedded a second time on the primitive binary64 numbers (module
    [Binary64]).

    Tensors.  A tensor of shape [[n, 4]] is a list of boxes, a tensor of
    shape [[n]] a list of scalars.  Operations that torch rejects (a boolean
    mask of the wrong length, shapes that do not broadcast, an empty
    [torch.stack]) raise, which is modelled by the [result] type. *)

From Stdlib Require Import Reals Lra Lia List Bool Arith Permutation.
From Stdlib Require PrimFloat.
Import ListNotations.

(** ** Scalars *)

Module Scalar.

Local Open Scope R_scope.

Inductive scalar : Type :=
| Fin (r : R)
| PInf
| NInf
| NaN.

(** Sign of a real number, as a [comparison] with zero. *)
Definition Rsign (r : R) : comparison :=
  match total_order_T r 0 with
  | inleft (left _) => Lt
  | inleft (right _) => Eq
  | inright _ => Gt
  end.

Definition sopp (a : scalar) : scalar :=
  match a with
  | Fin r => Fin (- r)
  | PInf => NInf
  | NInf => PInf
  | NaN => NaN
  end.

Definition sadd (a b : scalar) : scalar :=
  match a, b with
  | NaN, _ | _, NaN => NaN
  | Fin x, Fin y => Fin (x + y)
  | PInf, NInf | NInf, PInf => NaN
  | PInf, _ | _, PInf => PInf
  | NInf, _ | _, NInf => NInf
  end.

Definition ssub (a b : scalar) : scalar := sadd a (sopp b).

(** An infinity of the sign of [c] ([NaN] for a zero). *)
Definition inf_of (c : comparison) : scalar :=
  match c with
  | Gt => PInf
  | Lt => NInf
  | Eq => NaN
  end.

Definition smul (a b : scalar) : scalar :=
  match a, b with
  | NaN, _ | _, NaN => NaN
  | Fin x, Fin y => Fin (x * y)
  | PInf, Fin y | Fin y, PInf => inf_of (Rsign y)
  | NInf, Fin y | Fin y, NInf => inf_of (CompOpp (Rsign y))
  | PInf, PInf | NInf, NInf => PInf
  | PInf, NInf | NInf, PInf => NInf
  end.

Definition sdiv (a b : scalar) : scalar :=
  match a, b with
  | NaN, _ | _, NaN => NaN
  | Fin x, Fin y =>
      match Rsign y with
      | Eq => inf_of (Rsign x)
      | _ => Fin (x / y)
      end
  | Fin _, PInf | Fin _, NInf => Fin 0
  | PInf, Fin y => match Rsign y with Lt => NInf | _ => PInf end
  | NInf, Fin y => match Rsign y with Lt => PInf | _ => NInf end
  | _, _ => NaN
  end.

Definition sabs (a : scalar) : scalar :=
  match a with
  | Fin r => Fin (Rabs r)
  | PInf | NInf => PInf
  | NaN => NaN
  end.

Definition ssqrt (a : scalar) : scalar :=
  match a with
  | Fin r => match Rsign r with Lt => NaN | _ => Fin (sqrt r) end
  | PInf => PInf
  | NInf | NaN => NaN
  end.

(** [torch.arctan]. *)
Definition arctan (a : scalar) : scalar :=
  match a with
  | Fin r => Fin (atan r)
  | PInf => Fin (PI / 2)
  | NInf => Fin (- (PI / 2))
  | NaN => NaN
  end.

(** [torch.pow(x, 2)]. *)
Definition pow2 (a : scalar) : scalar := smul a a.

(** The comparison [x > 0] of the padding mask; false on [NaN]. *)
Definition sgt0 (a : scalar) : bool :=
  match a with
  | Fin r => match Rsign r with Gt => true | _ => false end
  | PInf => true
  | NInf | NaN => false
  end.

(** The comparison [x == 0]. *)
Definition is_zero (a : scalar) : bool :=
  match a with
  | Fin r => match Rsign r with Eq => true | _ => false end
  | _ => false
  end.

(** [torch.minimum] and [torch.maximum]: both propagate [NaN]. *)
Definition smin (a b : scalar) : scalar :=
  match a, b with
  | NaN, _ | _, NaN => NaN
  | NInf, _ | _, NInf => NInf
  | PInf, c | c, PInf => c
  | Fin x, Fin y => Fin (Rmin x y)
  end.

Definition smax (a b : scalar) : scalar :=
  match a, b with
  | NaN, _ | _, NaN => NaN
  | PInf, _ | _, PInf => PInf
  | NInf, c | c, NInf => c
  | Fin x, Fin y => Fin (Rmax x y)
  end.

(** [torch.sum] of a one-dimensional tensor. *)
Definition ssum (l : list scalar) : scalar := fold_right sadd (Fin 0) l.

(** [torch.mean]: the sum divided by the number of elements, hence [0/0]
    on the empty tensor. *)
Definition mean (l : list scalar) : scalar :=
  sdiv (ssum l) (Fin (INR (length l))).

(** A finite, non-negative scalar. *)
Definition fin_nonneg (a : scalar) : Prop := exists r, a = Fin r /\ 0 <= r.

(** Order on the finite scalars. *)
Definition sle (a b : scalar) : Prop :=
  exists x y, a = Fin x /\ b = Fin y /\ x <= y.

End Scalar.

Import Scalar.

(** ** Exceptions and tensors *)

Inductive exn : Type :=
| IndexError      (* a boolean mask that does not fit the indexed tensor *)
| RuntimeError.   (* shapes that do not broadcast, empty [torch.stack] *)

Inductive result (A : Type) : Type :=
| Ok (a : A)
| Raise (e : exn).

Arguments Ok {A} a.
Arguments Raise {A} e.

Definition bind {A B : Type} (m : result A) (k : A -> result B) : result B :=
  match m with
  | Ok a => k a
  | Raise e => Raise e
  end.

Declare Scope result_scope.
Delimit Scope result_scope with result.
Notation "x <- m ;; k" := (bind m (fun x => k))
  (at level 61, m at next level, right associativity) : result_scope.
Notation "' p <- m ;; k" := (bind m (fun x => match x with p => k end))
  (at level 61, p pattern, m at next level, right associativity) : result_scope.
Local Open Scope result_scope.

(** A row of a [[n, 4]] tensor. *)
Record box : Type := Box { b0 : scalar; b1 : scalar; b2 : scalar; b3 : scalar }.

Definition coords (b : box) : list scalar := [b0 b; b1 b; b2 b; b3 b].

(** The padding sentinel. *)
Definition zero_box : box := Box (Fin 0) (Fin 0) (Fin 0) (Fin 0).

(** [(target > 0).any(-1)] on one row. *)
Definition any_gt0 (b : box) : bool := existsb sgt0 (coords b).

(** [(target > 0).any(-1)]: the mask over the sequence dimension. *)
Definition keep_mask (target : list box) : list bool := map any_gt0 target.

Fixpoint select {A : Type} (rows : list A) (mask : list bool) : list A :=
  match rows, mask with
  | r :: rows', m :: mask' =>
      if m then r :: select rows' mask' else select rows' mask'
  | _, _ => []
  end.

(** [rows[mask]] for a boolean mask over the first dimension: torch raises
    [IndexError] when the mask and the tensor differ in length. *)
Definition index_mask {A : Type} (rows : list A) (mask : list bool)
  : result (list A) :=
  if Nat.eqb (length rows) (length mask) then Ok (select rows mask)
  else Raise IndexError.

Fixpoint zip_with {A B C : Type} (f : A -> B -> C) (xs : list A) (ys : list B)
  : list C :=
  match xs, ys with
  | x :: xs', y :: ys' => f x y :: zip_with f xs' ys'
  | _, _ => []
  end.

(** An elementwise binary operation of torch itself ([+], [-], [*], [/])
    on two one-dimensional tensors, with torch's broadcasting: equal sizes
    pair up, a size of one is repeated, any other pair of sizes raises.  The
    operations of the geometry module do not go through it (see [pairwise]
    below). *)
Definition broadcast2 {A B C : Type} (f : A -> B -> C)
  (xs : list A) (ys : list B) : result (list C) :=
  if Nat.eqb (length xs) (length ys) then Ok (zip_with f xs ys)
  else match xs, ys with
       | [x], _ => Ok (map (f x) ys)
       | _, [y] => Ok (map (fun x => f x y) xs)
       | _, _ => Raise RuntimeError
       end.

Definition tadd := broadcast2 sadd.
Definition tsub := broadcast2 ssub.
Definition tmul := broadcast2 smul.
Definition tdiv := broadcast2 sdiv.

(** [t.squeeze(0)] of a tensor of shape [[1]]. *)
Definition squeeze0 (t : list scalar) : result scalar :=
  match t with
  | [x] => Ok x
  | _ => Raise RuntimeError
  end.

(** ** The geometry module

    [tex.core.geometry] (imported as [geo]) is not part of the sources at
    hand.  The loss functions take it as a parameter: a record of the
    per-box operations.  On two tensors of equal length the operations act
    pair by pair along the sequence dimension ([geo_iou] and the like
    below).  What they do with two tensors of different lengths (raise,
    broadcast, ...) is not known and is a parameter as well: the
    [_mismatch] fields.  [geo.mbr] is called with two tensors (the rectangle
    around each pair) and with one (the rectangle around a whole sequence);
    the record has a field for each use. *)

Record Geometry : Type := {
  iou : box -> box -> scalar;
  mbr : box -> box -> box;
  mbr_all : list box -> box;
  diag : box -> scalar;
  center_distance : box -> box -> scalar;
  aspect_ratio : box -> scalar;
  area : box -> scalar;
  sum_si : list box -> scalar;
  iou_mismatch : list box -> list box -> result (list scalar);
  mbr_mismatch : list box -> list box -> result (list box);
  center_distance_mismatch : list box -> list box -> result (list scalar)
}.

(** A geometry operation on two tensors: pair by pair when the lengths
    agree, the geometry's own answer when they do not. *)
Definition pairwise {A B C : Type} (f : A -> B -> C)
  (mismatch : list A -> list B -> result (list C))
  (xs : list A) (ys : list B) : result (list C) :=
  if Nat.eqb (length xs) (length ys) then Ok (zip_with f xs ys)
  else mismatch xs ys.

(** [4 / (torch.pi * torch.pi)]. *)
Definition four_over_pi2 : scalar := Fin (4 / (PI * PI)).

Section Losses.

Variable geo : Geometry.

Definition geo_iou (a b : list box) : result (list scalar) :=
  pairwise (iou geo) (iou_mismatch geo) a b.
Definition geo_mbr (a b : list box) : result (list box) :=
  pairwise (mbr geo) (mbr_mismatch geo) a b.
Definition geo_center_distance (a b : list box) : result (list scalar) :=
  pairwise (center_distance geo) (center_distance_mismatch geo) a b.
Definition geo_diag (a : list box) : list scalar := map (diag geo) a.
Definition geo_aspect_ratio (a : list box) : list scalar :=
  map (aspect_ratio geo) a.
Definition geo_area (a : list box) : list scalar := map (area geo) a.

(** The first lines of every loss function:
<<
    if ignore_zero:
        output = output[(target > 0).any(-1)]
        target = target[(target > 0).any(-1)]
>>
    Both masks are computed from the target as it was passed in. *)
Definition padding_filter (output target : list box) (ignore_zero : bool)
  : result (list box * list box) :=
  if ignore_zero then
    output' <- index_mask output (keep_mask target) ;;
    target' <- index_mask target (keep_mask target) ;;
    Ok (output', target')
  else Ok (output, target).

Definition one_minus (t : list scalar) : list scalar := map (ssub (Fin 1)) t.

Definition iou_loss (output target : list box) (ignore_zero : bool)
  : result scalar :=
  '(output, target) <- padding_filter output target ignore_zero ;;
  iou <- geo_iou target output ;;
  let loss := one_minus iou in
  Ok (mean loss).

Definition distance_iou_loss (output target : list box) (ignore_zero : bool)
  : result scalar :=
  '(output, target) <- padding_filter output target ignore_zero ;;
  iou <- geo_iou target output ;;
  m <- geo_mbr target output ;;
  let mbr_diag := geo_diag m in
  dist_center <- geo_center_distance target output ;;
  q <- tdiv dist_center mbr_diag ;;
  loss <- tadd (one_minus iou) q ;;
  Ok (mean loss).

Definition complete_iou_loss (output target : list box) (ignore_zero : bool)
  : result scalar :=
  '(output, target) <- padding_filter output target ignore_zero ;;
  iou <- geo_iou target output ;;
  m <- geo_mbr target output ;;
  let mbr_diag := geo_diag m in
  dist_center <- geo_center_distance target output ;;
  let t_asp := map arctan (geo_aspect_ratio target) in
  let p_asp := map arctan (geo_aspect_ratio output) in
  d <- tsub t_asp p_asp ;;
  let value := map (fun x => smul (pow2 x) four_over_pi2) d in
  den <- tadd (one_minus iou) value ;;
  alpha <- tdiv value den ;;
  q <- tdiv dist_center mbr_diag ;;
  s <- tadd (one_minus iou) q ;;
  av <- tmul alpha value ;;
  loss <- tadd s av ;;
  Ok (mean loss).

Definition tile_iou_loss (output target : list box) (ignore_zero : bool)
  : result scalar :=
  '(output, target) <- padding_filter output target ignore_zero ;;
  iou <- geo_iou target output ;;
  m <- geo_mbr target output ;;
  let mbr_diag := geo_diag m in
  dist_center <- geo_center_distance target output ;;
  let t_asp := map arctan (geo_aspect_ratio target) in
  let p_asp := map arctan (geo_aspect_ratio output) in
  d <- tsub t_asp p_asp ;;
  let value := map (fun x => smul (pow2 x) four_over_pi2) d in
  den <- tadd (one_minus iou) value ;;
  alpha <- tdiv value den ;;
  q <- tdiv dist_center mbr_diag ;;
  s <- tadd (one_minus iou) q ;;
  av <- tmul alpha value ;;
  loss <- tadd s av ;;
  let p_mbr := mbr_all geo output in
  let p_ssi := sum_si geo output in
  let t_mbr := mbr_all geo target in
  let t_ssi := sum_si geo target in
  let p_dist :=
    sabs (ssub (Fin 1) (sdiv (ssum (geo_area output)) (area geo p_mbr))) in
  let t_dist :=
    sabs (ssub (Fin 1) (sdiv (ssum (geo_area target)) (area geo t_mbr))) in
  let p_tile := sadd (sdiv p_ssi (area geo p_mbr)) p_dist in
  let t_tile := sadd (sdiv t_ssi (area geo t_mbr)) t_dist in
  i <- geo_iou [p_mbr] [t_mbr] ;;
  seq_iou <- squeeze0 i ;;
  let seq_loss := sadd (ssub (Fin 1) seq_iou) (sabs (ssub p_tile t_tile)) in
  Ok (sadd (mean loss) seq_loss).

(** ** Batches *)

Section BatchMean.

Variables Out Tgt : Type.

(** [outputs[batch]] for [batch] in [range(targets.size(0))]: indexing past
    the end of [outputs] raises. *)
Fixpoint batch_losses (loss_func : Out -> Tgt -> result scalar)
  (outputs : list Out) (targets : list Tgt) : result (list scalar) :=
  match targets with
  | [] => Ok []
  | t :: targets' =>
      match outputs with
      | [] => Raise IndexError
      | o :: outputs' =>
          l <- loss_func o t ;;
          ls <- batch_losses loss_func outputs' targets' ;;
          Ok (l :: ls)
      end
  end.

(** [torch.stack] of a list of scalars: raises on the empty list. *)
Definition stack (l : list scalar) : result (list scalar) :=
  match l with
  | [] => Raise RuntimeError
  | _ => Ok l
  end.

Definition batch_mean (loss_func : Out -> Tgt -> result scalar)
  (outputs : list Out) (targets : list Tgt) : result scalar :=
  ls <- batch_losses loss_func outputs targets ;;
  t <- stack ls ;;
  Ok (mean t).

End BatchMean.

Arguments batch_losses {Out Tgt} loss_func outputs targets.
Arguments batch_mean {Out Tgt} loss_func outputs targets.

Section StructureLoss.

(** The classification side is torch's [F.cross_entropy]; its tensors and
    keyword arguments are kept abstract.  It returns a scalar or raises
    (on a label outside the classes, on shapes that do not fit). *)
Variables Logits Labels Weight : Type.
Variable cross_entropy :
  Logits -> Labels -> nat -> scalar -> option Weight -> result scalar.

Definition cls_loss (pad_idx : nat) (smoothing : scalar)
  (weight : option Weight) (output : Logits) (target : Labels)
  : result scalar :=
  cross_entropy output target pad_idx smoothing weight.

Definition structure_loss
  (outputs : list Logits * list (list box))
  (targets : list Labels * list (list box))
  (ignore_zero : bool) (pad_idx : nat) (smoothing : scalar)
  (weight : option Weight) : result (scalar * scalar) :=
  let '(cls_output, box_output) := outputs in
  let '(cls_target, box_target) := targets in
  cls_loss_value <-
    batch_mean (cls_loss pad_idx smoothing weight) cls_output cls_target ;;
  iou_loss_value <-
    batch_mean (fun o t => tile_iou_loss o t ignore_zero)
      box_output box_target ;;
  Ok (cls_loss_value, iou_loss_value).

End StructureLoss.

End Losses.

Arguments batch_losses {Out Tgt} loss_func outputs targets.
Arguments batch_mean {Out Tgt} loss_func outputs targets.
Arguments cls_loss {Logits Labels Weight} cross_entropy pad_idx smoothing
  weight output target.
Arguments structure_loss geo {Logits Labels Weight} cross_entropy outputs
  targets ignore_zero pad_idx smoothing weight.

(** ** The losses, position by position

    What the specification says of each loss, written over the aligned
    (target, prediction) pairs that survive the padding filter. *)

Section Terms.

Variable geo : Geometry.

Definition iou_term (t p : box) : scalar := ssub (Fin 1) (iou geo t p).

Definition dist_term (t p : box) : scalar :=
  sdiv (center_distance geo t p) (diag geo (mbr geo t p)).

Definition diou_term (t p : box) : scalar :=
  sadd (iou_term t p) (dist_term t p).

(** The aspect-ratio penalty [v]. *)
Definition aspect_value (t p : box) : scalar :=
  smul (pow2 (ssub (arctan (aspect_ratio geo t)) (arctan (aspect_ratio geo p))))
       four_over_pi2.

Definition alpha (t p : box) : scalar :=
  sdiv (aspect_value t p) (sadd (iou_term t p) (aspect_value t p)).

Definition ciou_term (t p : box) : scalar :=
  sadd (diou_term t p) (smul (alpha t p) (aspect_value t p)).

Definition coverage_gap (s : list box) : scalar :=
  sabs (ssub (Fin 1)
          (sdiv (ssum (map (area geo) s)) (area geo (mbr_all geo s)))).

Definition tile_score (s : list box) : scalar :=
  sadd (sdiv (sum_si geo s) (area geo (mbr_all geo s))) (coverage_gap s).

(** The sequence-level part of the tile loss. *)
Definition seq_term (pred target : list box) : scalar :=
  sadd (ssub (Fin 1) (iou geo (mbr_all geo pred) (mbr_all geo target)))
       (sabs (ssub (tile_score pred) (tile_score target))).

(** The (target, prediction) pairs a loss is computed on. *)
Definition kept (output target : list box) (ignore_zero : bool)
  : list (box * box) :=
  if ignore_zero
  then filter (fun tp => any_gt0 (fst tp)) (combine target output)
  else combine target output.

Definition terms (f : box -> box -> scalar) (l : list (box * box))
  : list scalar :=
  map (fun tp => f (fst tp) (snd tp)) l.

End Terms.

(** ** A geometry after the specification *)

Module SpecGeometry.

(** Modelled from the spec: [tex.core.geometry] is missing from the
    sources; the operations of this module follow the contract of the
    specification (section 4.1).  A box is read in the center-size encoding
    [(x, y, w, h)], one of the encodings the specification allows and the
    one in which the rows of its scenario, [[0.1, 0.1, 0.1, 0.1]] and
    [[0.1, 0.1, 0.125, 0.2]], are both boxes of positive size.  [half] is
    the division by two that the encoding needs. *)
Definition half (a : scalar) : scalar := sdiv a (Fin 2).

(** Modelled from the spec: the corners [(x1, y1)] and [(x2, y2)] of a box
    given by its center and its size. *)
Definition x1 (b : box) : scalar := ssub (b0 b) (half (b2 b)).
Definition y1 (b : box) : scalar := ssub (b1 b) (half (b3 b)).
Definition x2 (b : box) : scalar := sadd (b0 b) (half (b2 b)).
Definition y2 (b : box) : scalar := sadd (b1 b) (half (b3 b)).

(** Modelled from the spec: the box with the given corners, back in the
    center-size encoding. *)
Definition of_corners (lx ly hx hy : scalar) : box :=
  Box (half (sadd lx hx)) (half (sadd ly hy)) (ssub hx lx) (ssub hy ly).

(** Modelled from the spec: a box is degenerate when its width or its
    height is zero. *)
Definition degenerate (b : box) : bool := is_zero (b2 b) || is_zero (b3 b).

(** Modelled from the spec: [area], width times height. *)
Definition area (b : box) : scalar := smul (b2 b) (b3 b).

(** Modelled from the spec: the length of the overlap of the intervals
    [[l, h]] and [[l', h']], for the intersection area. *)
Definition overlap (l h l' h' : scalar) : scalar :=
  smax (Fin 0) (ssub (smin h h') (smax l l')).

(** Modelled from the spec: the area of the intersection of two boxes. *)
Definition inter (a b : box) : scalar :=
  smul (overlap (x1 a) (x2 a) (x1 b) (x2 b))
       (overlap (y1 a) (y2 a) (y1 b) (y2 b)).

(** Modelled from the spec: [iou], intersection area over union area, and
    0 when either box is degenerate. *)
Definition iou (a b : box) : scalar :=
  if degenerate a || degenerate b then Fin 0
  else sdiv (inter a b) (ssub (sadd (area a) (area b)) (inter a b)).

(** Modelled from the spec: [mbr] of a pair, the minimum bounding rectangle
    enclosing both boxes. *)
Definition mbr (a b : box) : box :=
  of_corners (smin (x1 a) (x1 b)) (smin (y1 a) (y1 b))
             (smax (x2 a) (x2 b)) (smax (y2 a) (y2 b)).

(** Modelled from the spec: [mbr] of a whole sequence, the minimum bounding
    rectangle of all its boxes. *)
Definition mbr_all (s : list box) : box :=
  of_corners (fold_right smin PInf (map x1 s)) (fold_right smin PInf (map y1 s))
             (fold_right smax NInf (map x2 s)) (fold_right smax NInf (map y2 s)).

(** Modelled from the spec: [diag], the Euclidean length of the diagonal. *)
Definition diag (b : box) : scalar :=
  ssqrt (sadd (pow2 (b2 b)) (pow2 (b3 b))).

(** Modelled from the spec: [center_distance], the Euclidean distance
    between the centers. *)
Definition center_distance (a b : box) : scalar :=
  ssqrt (sadd (pow2 (ssub (b0 a) (b0 b))) (pow2 (ssub (b1 a) (b1 b)))).

(** Modelled from the spec: [aspect_ratio], width over height. *)
Definition aspect_ratio (b : box) : scalar := sdiv (b2 b) (b3 b).

(** Modelled from the spec: [sum_si], the sum of the intersection areas of
    the pairs of boxes of the sequence. *)
Fixpoint sum_si (s : list box) : scalar :=
  match s with
  | [] => Fin 0
  | b :: s' => sadd (ssum (map (inter b) s')) (sum_si s')
  end.

End SpecGeometry.

(** Modelled from the spec: the geometry module, assembled from the
    operations above.  On sequences of different lengths it raises: the
    specification calls a shape mismatch a fatal precondition violation. *)
Definition spec_geo : Geometry :=
  Build_Geometry SpecGeometry.iou SpecGeometry.mbr SpecGeometry.mbr_all
    SpecGeometry.diag SpecGeometry.center_distance SpecGeometry.aspect_ratio
    SpecGeometry.area SpecGeometry.sum_si
    (fun _ _ => Raise RuntimeError) (fun _ _ => Raise RuntimeError)
    (fun _ _ => Raise RuntimeError).

(** ** Boxes with finite coordinates *)

(** A box with finite coordinates. *)
Definition fbox (x y w h : R) : box := Box (Fin x) (Fin y) (Fin w) (Fin h).

(** Overlap of two real intervals. *)
Definition roverlap (l h l' h' : R) : R :=
  Rmax 0 (Rmin h h' - Rmax l l')%R.

(** Intersection area of two finite boxes. *)
Definition rinter (x y w h x' y' w' h' : R) : R :=
  (roverlap (x - w / 2) (x + w / 2) (x' - w' / 2) (x' + w' / 2)
   * roverlap (y - h / 2) (y + h / 2) (y' - h' / 2) (y' + h' / 2))%R.

(** ** The four box losses together *)

Definition loss_fn : Type := list box -> list box -> bool -> result scalar.

Definition losses (geo : Geometry) : list loss_fn :=
  [iou_loss geo; distance_iou_loss geo; complete_iou_loss geo;
   tile_iou_loss geo].

(** The three losses that only have per-position terms. *)
Definition pairwise_losses (geo : Geometry) : list loss_fn :=
  [iou_loss geo; distance_iou_loss geo; complete_iou_loss geo].

(** The values of the four losses over a list of aligned
    (target, prediction) pairs. *)
Definition loss_values (geo : Geometry) (pairs : list (box * box))
  : list (result scalar) :=
  [Ok (mean (terms (iou_term geo) pairs));
   Ok (mean (terms (diou_term geo) pairs));
   Ok (mean (terms (ciou_term geo) pairs));
   Ok (sadd (mean (terms (ciou_term geo) pairs))
            (seq_term geo (map snd pairs) (map fst pairs)))].

(** The value of [tile_iou_loss] on one sample of aligned sequences. *)
Definition sample_loss (geo : Geometry) (output target : list box)
  (ignore_zero : bool) : scalar :=
  sadd (mean (terms (ciou_term geo) (kept output target ignore_zero)))
       (seq_term geo (map snd (kept output target ignore_zero))
                     (map fst (kept output target ignore_zero))).

(** The all-zero sentinel row. *)
Definition is_sentinel (b : box) : bool := forallb is_zero (coords b).

(** The aligned pairs whose target row is not the all-zero sentinel. *)
Definition drop_sentinels (output target : list box) : list (box * box) :=
  filter (fun tp => negb (is_sentinel (fst tp))) (combine target output).

(** A scalar strictly greater than zero. *)
Definition positive (c : scalar) : Prop :=
  c = PInf \/ exists r, c = Fin r /\ (0 < r)%R.

(** The rows of the scenario of the specification, and a row with negative
    coordinates and no positive one. *)
Definition scenario_pred : box :=
  fbox (1 / 10) (1 / 10) (1 / 10) (1 / 10).
Definition scenario_target : box :=
  fbox (1 / 10) (1 / 10) (1 / 8) (1 / 5).
Definition negative_row : box := fbox (-1) (-1) 0 0.

(** A row of negative coordinates; read as corners [(x1, y1, x2, y2)] it is
    a square of side 2. *)
Definition negative_box : box := fbox (-3) (-3) (-1) (-1).

(** What the geometry has to say of a box paired with itself for the terms
    of the pair to vanish: an overlap ratio of 1, centers at distance 0 and
    a rectangle around the pair with a diagonal that is a number other
    than 0. *)
Definition coincides (geo : Geometry) (a : box) : Prop :=
  iou geo a a = Fin 1
  /\ center_distance geo a a = Fin 0
  /\ exists d, diag geo (mbr geo a a) = Fin d /\ d <> 0%R.


(** ** The tile loss on binary64 numbers

    The tensors of the source hold IEEE binary64 numbers (the example at the
    end of [losses.py] builds them with [dtype=torch.float64]).  This module
    embeds [tile_iou_loss] once more, on the primitive binary64 numbers, for
    what rounding does to it.  [torch.sum] and [torch.mean] of a short
    one-dimensional tensor add its elements in sequence order. *)

Module Binary64.

Import PrimFloat.
Local Open Scope float_scope.

(** A row of a [[n, 4]] tensor. *)
Record row : Type := Row { r0 : float; r1 : float; r2 : float; r3 : float }.

(** [(target > 0).any(-1)] on one row. *)
Definition any_gt0 (b : row) : bool :=
  existsb (fun c => 0 <? c) [r0 b; r1 b; r2 b; r3 b].

Definition keep_mask (target : list row) : list bool := map any_gt0 target.

(** [torch.sum] of a one-dimensional tensor. *)
Definition sum (t : list float) : float := fold_left add t 0.

(** The number of elements, as a binary64 number. *)
Fixpoint of_nat (n : nat) : float :=
  match n with
  | O => 0
  | S m => of_nat m + 1
  end.

(** [torch.mean]. *)
Definition mean (t : list float) : float := sum t / of_nat (length t).

(** [torch.pi] and [4 / (torch.pi * torch.pi)]. *)
Definition pi : float := 0x1.921fb54442d18p+1.
Definition four_over_pi2 : float := 4 / (pi * pi).

(** [t.squeeze(0)] of a tensor of shape [[1]]. *)
Definition squeeze0 (t : list float) : result float :=
  match t with
  | [x] => Ok x
  | _ => Raise RuntimeError
  end.

(** The geometry module on binary64 numbers, a parameter as above. *)
Record Geometry : Type := {
  iou : row -> row -> float;
  mbr : row -> row -> row;
  mbr_all : list row -> row;
  diag : row -> float;
  center_distance : row -> row -> float;
  aspect_ratio : row -> float;
  area : row -> float;
  sum_si : list row -> float;
  iou_mismatch : list row -> list row -> result (list float);
  mbr_mismatch : list row -> list row -> result (list row);
  center_distance_mismatch : list row -> list row -> result (list float)
}.

Section Losses.

Variable geo : Geometry.

(** [torch.arctan]; the primitive numbers have no arctangent, it is a
    parameter. *)
Variable arctan : float -> float.

Definition padding_filter (output target : list row) (ignore_zero : bool)
  : result (list row * list row) :=
  if ignore_zero then
    output' <- index_mask output (keep_mask target) ;;
    target' <- index_mask target (keep_mask target) ;;
    Ok (output', target')
  else Ok (output, target).

Definition geo_iou (a b : list row) : result (list float) :=
  pairwise (iou geo) (iou_mismatch geo) a b.
Definition geo_mbr (a b : list row) : result (list row) :=
  pairwise (mbr geo) (mbr_mismatch geo) a b.
Definition geo_center_distance (a b : list row) : result (list float) :=
  pairwise (center_distance geo) (center_distance_mismatch geo) a b.

Definition tile_iou_loss (output target : list row) (ignore_zero : bool)
  : result float :=
  '(output, target) <- padding_filter output target ignore_zero ;;
  iou <- geo_iou target output ;;
  m <- geo_mbr target output ;;
  let mbr_diag := map (diag geo) m in
  dist_center <- geo_center_distance target output ;;
  let t_asp := map arctan (map (aspect_ratio geo) target) in
  let p_asp := map arctan (map (aspect_ratio geo) output) in
  d <- broadcast2 sub t_asp p_asp ;;
  let value := map (fun x => x * x * four_over_pi2) d in
  den <- broadcast2 add (map (sub 1) iou) value ;;
  alpha <- broadcast2 div value den ;;
  q <- broadcast2 div dist_center mbr_diag ;;
  s <- broadcast2 add (map (sub 1) iou) q ;;
  av <- broadcast2 mul alpha value ;;
  loss <- broadcast2 add s av ;;
  let p_mbr := mbr_all geo output in
  let p_ssi := sum_si geo output in
  let t_mbr := mbr_all geo target in
  let t_ssi := sum_si geo target in
  let p_dist := abs (1 - sum (map (area geo) output) / area geo p_mbr) in
  let t_dist := abs (1 - sum (map (area geo) target) / area geo t_mbr) in
  let p_tile := p_ssi / area geo p_mbr + p_dist in
  let t_tile := t_ssi / area geo t_mbr + t_dist in
  i <- geo_iou [p_mbr] [t_mbr] ;;
  seq_iou <- squeeze0 i ;;
  let seq_loss := 1 - seq_iou + abs (p_tile - t_tile) in
  Ok (mean loss + seq_loss).

End Losses.

(** Modelled from the spec: the operations of [tex.core.geometry], missing
    from the sources, after the contract of the specification (section 4.1)
    on binary64 numbers, a box being read in the center-size encoding
    [(x, y, w, h)] as in [SpecGeometry].  Minimum and maximum of two
    numbers. *)
Definition min (a b : float) : float := if b <? a then b else a.
Definition max (a b : float) : float := if a <? b then b else a.

(** Modelled from the spec: the corners of a box. *)
Definition x1 (b : row) : float := r0 b - r2 b / 2.
Definition y1 (b : row) : float := r1 b - r3 b / 2.
Definition x2 (b : row) : float := r0 b + r2 b / 2.
Definition y2 (b : row) : float := r1 b + r3 b / 2.

(** Modelled from the spec: the box with the given corners. *)
Definition of_corners (lx ly hx hy : float) : row :=
  Row ((lx + hx) / 2) ((ly + hy) / 2) (hx - lx) (hy - ly).

(** Modelled from the spec: zero width or zero height. *)
Definition degenerate (b : row) : bool := (r2 b =? 0) || (r3 b =? 0).

(** Modelled from the spec: width times height. *)
Definition spec_area (b : row) : float := r2 b * r3 b.

(** Modelled from the spec: the overlap of two intervals. *)
Definition overlap (l h l' h' : float) : float :=
  max 0 (min h h' - max l l').

(** Modelled from the spec: the intersection area of two boxes. *)
Definition inter (a b : row) : float :=
  overlap (x1 a) (x2 a) (x1 b) (x2 b) * overlap (y1 a) (y2 a) (y1 b) (y2 b).

(** Modelled from the spec: intersection area over union area, 0 when
    either box is degenerate. *)
Definition spec_iou (a b : row) : float :=
  if degenerate a || degenerate b then 0
  else inter a b / (spec_area a + spec_area b - inter a b).

(** Modelled from the spec: the minimum bounding rectangle of a pair and
    of a whole sequence. *)
Definition spec_mbr (a b : row) : row :=
  of_corners (min (x1 a) (x1 b)) (min (y1 a) (y1 b))
             (max (x2 a) (x2 b)) (max (y2 a) (y2 b)).
Definition spec_mbr_all (s : list row) : row :=
  of_corners (fold_right min infinity (map x1 s))
             (fold_right min infinity (map y1 s))
             (fold_right max neg_infinity (map x2 s))
             (fold_right max neg_infinity (map y2 s)).

(** Modelled from the spec: the length of the diagonal, the distance
    between the centers, width over height. *)
Definition spec_diag (b : row) : float := sqrt (r2 b * r2 b + r3 b * r3 b).
Definition spec_center_distance (a b : row) : float :=
  sqrt ((r0 a - r0 b) * (r0 a - r0 b) + (r1 a - r1 b) * (r1 a - r1 b)).
Definition spec_aspect_ratio (b : row) : float := r2 b / r3 b.

(** Modelled from the spec: the sum of the intersection areas of the pairs
    of boxes of the sequence. *)
Fixpoint spec_sum_si (s : list row) : float :=
  match s with
  | [] => 0
  | b :: s' => sum (map (inter b) s') + spec_sum_si s'
  end.

(** Modelled from the spec: the geometry module, assembled; it raises on
    sequences of different lengths. *)
Definition spec_geo : Geometry :=
  Build_Geometry spec_iou spec_mbr spec_mbr_all spec_diag
    spec_center_distance spec_aspect_ratio spec_area spec_sum_si
    (fun _ _ => Raise RuntimeError) (fun _ _ => Raise RuntimeError)
    (fun _ _ => Raise RuntimeError).

(** Three target squares of side 1/2 next to each other, and predicted
    squares of sides 1/10, 2/5 and 2/5 around the same centers. *)
Definition tiles_target : list row :=
  [Row 1 1 (1 / 2) (1 / 2); Row 3 1 (1 / 2) (1 / 2); Row 5 1 (1 / 2) (1 / 2)].
Definition tiles_pred : list row :=
  [Row 1 1 (1 / 10) (1 / 10); Row 3 1 (2 / 5) (2 / 5);
   Row 5 1 (2 / 5) (2 / 5)].

(** [torch.arctan(1.0)], a quarter of [pi]. *)
Definition arctan_one : float := 0x1.921fb54442d18p-1.

(** The two values of the loss on these squares: 0.94366013071895383 and
    0.94366013071895372. *)
Definition loss_in_order : float := 0x1.e3276baff4384p-1.
Definition loss_rotated : float := 0x1.e3276baff4383p-1.

End Binary64.

(** The first element moved to the end: a permutation that moves every
    position of a sequence of three. *)
Definition rotate {A : Type} (l : list A) : list A :=
  match l with
  | [] => []
  | x :: l' => l' ++ [x]
  end.

(** ** Lists, masks and broadcasting *)

Lemma zip_with_map_same {A B C D : Type} (f : B -> C -> D)
  (g : A -> B) (h : A -> C) (l : list A) :
  zip_with f (map g l) (map h l) = map (fun x => f (g x) (h x)) l.
Proof.
  induction l as [|x l IH]; simpl; [reflexivity | now rewrite IH].
Qed.

Lemma broadcast2_map_same {A B C D : Type} (f : B -> C -> D)
  (g : A -> B) (h : A -> C) (l : list A) :
  broadcast2 f (map g l) (map h l) = Ok (map (fun x => f (g x) (h x)) l).
Proof.
  unfold broadcast2. rewrite !length_map, Nat.eqb_refl.
  now rewrite zip_with_map_same.
Qed.

Lemma select_combine (output target : list box) :
  length output = length target ->
  select output (keep_mask target)
    = map snd (filter (fun tp => any_gt0 (fst tp)) (combine target output))
  /\ select target (keep_mask target)
    = map fst (filter (fun tp => any_gt0 (fst tp)) (combine target output)).
Proof.
  revert output; induction target as [|t target IH]; intros [|o output] H;
    simpl in *; try discriminate; auto.
  injection H as H. destruct (IH _ H) as [IHo IHt].
  destruct (any_gt0 t); simpl; rewrite IHo, IHt; auto.
Qed.

Lemma combine_fst_snd (output target : list box) :
  length output = length target ->
  map snd (combine target output) = output
  /\ map fst (combine target output) = target.
Proof.
  revert output; induction target as [|t target IH]; intros [|o output] H;
    simpl in *; try discriminate; auto.
  injection H as H. destruct (IH _ H) as [-> ->]. auto.
Qed.

Lemma padding_filter_ok (output target : list box) (ignore_zero : bool) :
  length output = length target ->
  padding_filter output target ignore_zero
    = Ok (map snd (kept output target ignore_zero),
          map fst (kept output target ignore_zero)).
Proof.
  intros H. unfold padding_filter, kept, index_mask, keep_mask.
  destruct ignore_zero.
  - rewrite length_map, H, Nat.eqb_refl. cbn [bind].
    fold (keep_mask target).
    destruct (select_combine output target H) as [-> ->]. reflexivity.
  - destruct (combine_fst_snd output target H) as [-> ->]. reflexivity.
Qed.

Lemma pairwise_map_same {A B C D : Type} (f : B -> C -> D)
  (mismatch : list B -> list C -> result (list D))
  (g : A -> B) (h : A -> C) (l : list A) :
  pairwise f mismatch (map g l) (map h l)
    = Ok (map (fun x => f (g x) (h x)) l).
Proof.
  unfold pairwise. rewrite !length_map, Nat.eqb_refl.
  now rewrite zip_with_map_same.
Qed.

(** Evaluation of a loss body on the columns of a list of pairs. *)
Ltac eval_tensors :=
  unfold geo_iou, geo_mbr, geo_center_distance, geo_diag, geo_aspect_ratio,
    geo_area, one_minus, tadd, tsub, tmul, tdiv;
  repeat (rewrite ?map_map;
          first [rewrite pairwise_map_same | rewrite broadcast2_map_same];
          cbn [bind]);
  rewrite ?map_map.

Section Pointwise.

Variable geo : Geometry.

Lemma iou_loss_terms (output target : list box) (ignore_zero : bool) :
  length output = length target ->
  iou_loss geo output target ignore_zero
    = Ok (mean (terms (iou_term geo) (kept output target ignore_zero))).
Proof.
  intros H. unfold iou_loss. rewrite (padding_filter_ok _ _ ignore_zero H). cbn [bind].
  eval_tensors. reflexivity.
Qed.

Lemma distance_iou_loss_terms (output target : list box) (ignore_zero : bool) :
  length output = length target ->
  distance_iou_loss geo output target ignore_zero
    = Ok (mean (terms (diou_term geo) (kept output target ignore_zero))).
Proof.
  intros H. unfold distance_iou_loss. rewrite (padding_filter_ok _ _ ignore_zero H).
  cbn [bind]. eval_tensors. reflexivity.
Qed.

Lemma complete_iou_loss_terms (output target : list box) (ignore_zero : bool) :
  length output = length target ->
  complete_iou_loss geo output target ignore_zero
    = Ok (mean (terms (ciou_term geo) (kept output target ignore_zero))).
Proof.
  intros H. unfold complete_iou_loss. rewrite (padding_filter_ok _ _ ignore_zero H).
  cbn [bind]. eval_tensors. reflexivity.
Qed.

Lemma tile_iou_loss_terms (output target : list box) (ignore_zero : bool) :
  length output = length target ->
  tile_iou_loss geo output target ignore_zero
    = Ok (sadd (mean (terms (ciou_term geo) (kept output target ignore_zero)))
               (seq_term geo (map snd (kept output target ignore_zero))
                             (map fst (kept output target ignore_zero)))).
Proof.
  intros H. unfold tile_iou_loss. rewrite (padding_filter_ok _ _ ignore_zero H).
  cbn [bind]. eval_tensors.
  unfold pairwise. cbn [length Nat.eqb zip_with bind squeeze0].
  unfold seq_term, tile_score, coverage_gap. rewrite ?map_map.
  reflexivity.
Qed.

End Pointwise.

(** ** Arithmetic of the scalars *)

Module ScalarFacts.

Local Open Scope R_scope.

Lemma Rsign_pos (r : R) : 0 < r -> Rsign r = Gt.
Proof.
  intros H. unfold Rsign.
  destruct (total_order_T r 0) as [[Hlt | Heq] | Hgt]; try reflexivity; lra.
Qed.

Lemma Rsign_neg (r : R) : r < 0 -> Rsign r = Lt.
Proof.
  intros H. unfold Rsign.
  destruct (total_order_T r 0) as [[Hlt | Heq] | Hgt]; try reflexivity; lra.
Qed.

Lemma Rsign_zero : Rsign 0 = Eq.
Proof.
  unfold Rsign.
  destruct (total_order_T 0 0) as [[Hlt | Heq] | Hgt]; try reflexivity; lra.
Qed.

Lemma Rsign_Eq (r : R) : Rsign r = Eq <-> r = 0.
Proof.
  unfold Rsign.
  destruct (total_order_T r 0) as [[Hlt | Heq] | Hgt]; split;
    intros H; try discriminate; try reflexivity; lra.
Qed.

Lemma Rsign_Gt (r : R) : Rsign r = Gt <-> 0 < r.
Proof.
  unfold Rsign.
  destruct (total_order_T r 0) as [[Hlt | Heq] | Hgt]; split;
    intros H; try discriminate; try reflexivity; lra.
Qed.

Lemma Rsign_Lt (r : R) : Rsign r = Lt <-> r < 0.
Proof.
  unfold Rsign.
  destruct (total_order_T r 0) as [[Hlt | Heq] | Hgt]; split;
    intros H; try discriminate; try reflexivity; lra.
Qed.

Lemma sadd_comm (a b : scalar) : sadd a b = sadd b a.
Proof. destruct a, b; simpl; try reflexivity. f_equal; lra. Qed.

Lemma sadd_assoc (a b c : scalar) : sadd a (sadd b c) = sadd (sadd a b) c.
Proof. destruct a, b, c; simpl; try reflexivity. f_equal; lra. Qed.

Lemma sadd_NaN_r (a : scalar) : sadd a NaN = NaN.
Proof. now destruct a. Qed.

Lemma smin_comm (a b : scalar) : smin a b = smin b a.
Proof. destruct a, b; simpl; try reflexivity. f_equal; apply Rmin_comm. Qed.

Lemma smin_assoc (a b c : scalar) : smin a (smin b c) = smin (smin a b) c.
Proof.
  destruct a, b, c; simpl; try reflexivity. f_equal.
  apply Rmin_assoc.
Qed.

Lemma smax_comm (a b : scalar) : smax a b = smax b a.
Proof. destruct a, b; simpl; try reflexivity. f_equal; apply Rmax_comm. Qed.

Lemma smax_assoc (a b c : scalar) : smax a (smax b c) = smax (smax a b) c.
Proof.
  destruct a, b, c; simpl; try reflexivity. f_equal.
  apply Rmax_assoc.
Qed.

Lemma sdiv_fin (x y : R) : y <> 0 -> sdiv (Fin x) (Fin y) = Fin (x / y).
Proof.
  intros H. simpl. destruct (Rsign y) eqn:E; try reflexivity.
  apply Rsign_Eq in E. contradiction.
Qed.

Lemma sdiv_zero_zero : sdiv (Fin 0) (Fin 0) = NaN.
Proof. simpl. now rewrite Rsign_zero. Qed.

Lemma mean_nil : mean [] = NaN.
Proof. unfold mean. simpl. apply sdiv_zero_zero. Qed.

Lemma ssum_NaN (l : list scalar) : In NaN l -> ssum l = NaN.
Proof.
  induction l as [|a l IH]; [intros []|].
  change (ssum (a :: l)) with (sadd a (ssum l)).
  intros [-> | H]; [reflexivity|].
  rewrite (IH H). apply sadd_NaN_r.
Qed.

Lemma mean_NaN (l : list scalar) : In NaN l -> mean l = NaN.
Proof. intros H. unfold mean. now rewrite (ssum_NaN l H). Qed.

(** A fold of a commutative, associative operation does not depend on the
    order of the list. *)
Lemma fold_right_perm {A : Type} (op : A -> A -> A) (e : A) :
  (forall a b, op a b = op b a) ->
  (forall a b c, op a (op b c) = op (op a b) c) ->
  forall l l', Permutation l l' -> fold_right op e l = fold_right op e l'.
Proof.
  intros Hc Ha l l' P.
  induction P as [| x l l' P IH | x y l | l l' l'' P1 IH1 P2 IH2]; simpl.
  - reflexivity.
  - now rewrite IH.
  - rewrite !Ha. now rewrite (Hc y x).
  - now rewrite IH1.
Qed.

Lemma ssum_perm (l l' : list scalar) : Permutation l l' -> ssum l = ssum l'.
Proof. apply fold_right_perm; [apply sadd_comm | apply sadd_assoc]. Qed.

Lemma mean_perm (l l' : list scalar) : Permutation l l' -> mean l = mean l'.
Proof.
  intros P. unfold mean.
  now rewrite (ssum_perm _ _ P), (Permutation_length P).
Qed.

Lemma mean_repeat_fin (x : R) (n : nat) :
  (0 < n)%nat -> mean (repeat (Fin x) n) = Fin x.
Proof.
  intros Hn. unfold mean. rewrite repeat_length.
  assert (Hs : ssum (repeat (Fin x) n) = Fin (INR n * x)).
  { clear Hn. induction n as [|n IH]; [simpl; f_equal; lra|].
    change (ssum (repeat (Fin x) (S n)))
      with (sadd (Fin x) (ssum (repeat (Fin x) n))).
    rewrite IH. simpl sadd.
    rewrite S_INR. f_equal; lra. }
  rewrite Hs. assert (Hp : 0 < INR n) by (apply lt_0_INR; exact Hn).
  rewrite sdiv_fin by lra. f_equal. field. lra.
Qed.

End ScalarFacts.

(** ** Facts on the geometry after the specification *)

Module SpecGeometryFacts.

Import ScalarFacts SpecGeometry.
Local Open Scope R_scope.

Ltac minmax :=
  unfold roverlap, Rmin, Rmax; repeat destruct (Rle_dec _ _); try lra.

Lemma half_fin (w : R) : half (Fin w) = Fin (w / 2).
Proof. unfold half. apply sdiv_fin. lra. Qed.

Lemma x1_fbox x y w h : x1 (fbox x y w h) = Fin (x - w / 2).
Proof. unfold x1, fbox; simpl b0; simpl b2. now rewrite half_fin. Qed.

Lemma x2_fbox x y w h : x2 (fbox x y w h) = Fin (x + w / 2).
Proof. unfold x2, fbox; simpl b0; simpl b2. now rewrite half_fin. Qed.

Lemma y1_fbox x y w h : y1 (fbox x y w h) = Fin (y - h / 2).
Proof. unfold y1, fbox; simpl b1; simpl b3. now rewrite half_fin. Qed.

Lemma y2_fbox x y w h : y2 (fbox x y w h) = Fin (y + h / 2).
Proof. unfold y2, fbox; simpl b1; simpl b3. now rewrite half_fin. Qed.

Lemma overlap_fin l h l' h' :
  overlap (Fin l) (Fin h) (Fin l') (Fin h') = Fin (roverlap l h l' h').
Proof. reflexivity. Qed.

Lemma inter_fbox x y w h x' y' w' h' :
  inter (fbox x y w h) (fbox x' y' w' h') = Fin (rinter x y w h x' y' w' h').
Proof.
  unfold inter.
  rewrite !x1_fbox, !x2_fbox, !y1_fbox, !y2_fbox, !overlap_fin.
  reflexivity.
Qed.

Lemma area_fbox x y w h : area (fbox x y w h) = Fin (w * h).
Proof. reflexivity. Qed.

Lemma is_zero_fin (r : R) : r <> 0 -> is_zero (Fin r) = false.
Proof.
  intros H. simpl. destruct (Rsign r) eqn:E; try reflexivity.
  apply Rsign_Eq in E. contradiction.
Qed.

Lemma degenerate_fbox x y w h :
  0 < w -> 0 < h -> degenerate (fbox x y w h) = false.
Proof.
  intros Hw Hh. unfold degenerate, fbox; simpl b2; simpl b3.
  rewrite !is_zero_fin by lra. reflexivity.
Qed.

Lemma roverlap_bounds l h l' h' :
  l <= h -> 0 <= roverlap l h l' h' <= h - l.
Proof. intros H. minmax. Qed.

Lemma roverlap_self l h : l <= h -> roverlap l h l h = h - l.
Proof. intros H. minmax. Qed.

Lemma rinter_bounds x y w h x' y' w' h' :
  0 < w -> 0 < h ->
  0 <= rinter x y w h x' y' w' h' <= w * h.
Proof.
  intros Hw Hh. unfold rinter.
  pose proof (roverlap_bounds (x - w / 2) (x + w / 2)
                (x' - w' / 2) (x' + w' / 2)) as Hx.
  pose proof (roverlap_bounds (y - h / 2) (y + h / 2)
                (y' - h' / 2) (y' + h' / 2)) as Hy.
  assert (Hx' := Hx ltac:(lra)). assert (Hy' := Hy ltac:(lra)).
  replace (x + w / 2 - (x - w / 2)) with w in Hx' by lra.
  replace (y + h / 2 - (y - h / 2)) with h in Hy' by lra.
  split; nra.
Qed.

Lemma roverlap_bounds_r l h l' h' :
  l' <= h' -> 0 <= roverlap l h l' h' <= h' - l'.
Proof. intros H. minmax. Qed.

Lemma rinter_bounds_r x y w h x' y' w' h' :
  0 < w' -> 0 < h' ->
  0 <= rinter x y w h x' y' w' h' <= w' * h'.
Proof.
  intros Hw Hh. unfold rinter.
  pose proof (roverlap_bounds_r (x - w / 2) (x + w / 2)
                (x' - w' / 2) (x' + w' / 2)) as Hx.
  pose proof (roverlap_bounds_r (y - h / 2) (y + h / 2)
                (y' - h' / 2) (y' + h' / 2)) as Hy.
  assert (Hx' := Hx ltac:(lra)). assert (Hy' := Hy ltac:(lra)).
  replace (x' + w' / 2 - (x' - w' / 2)) with w' in Hx' by lra.
  replace (y' + h' / 2 - (y' - h' / 2)) with h' in Hy' by lra.
  split; nra.
Qed.

Lemma rinter_self x y w h :
  0 < w -> 0 < h -> rinter x y w h x y w h = w * h.
Proof.
  intros Hw Hh. unfold rinter. rewrite !roverlap_self by lra. lra.
Qed.

(** On boxes of positive size the overlap ratio is a number of [[0, 1]]. *)
Lemma iou_fbox x y w h x' y' w' h' :
  0 < w -> 0 < h -> 0 < w' -> 0 < h' ->
  iou (fbox x y w h) (fbox x' y' w' h')
    = Fin (rinter x y w h x' y' w' h'
           / (w * h + w' * h' - rinter x y w h x' y' w' h')).
Proof.
  intros Hw Hh Hw' Hh'. unfold iou.
  rewrite !degenerate_fbox by assumption. cbn [orb].
  rewrite inter_fbox, !area_fbox.
  pose proof (rinter_bounds x y w h x' y' w' h' Hw Hh) as Hb.
  cbn [sadd ssub sopp]. apply sdiv_fin. nra.
Qed.

Lemma iou_fbox_range x y w h x' y' w' h' :
  0 < w -> 0 < h -> 0 < w' -> 0 < h' ->
  exists r, iou (fbox x y w h) (fbox x' y' w' h') = Fin r /\ 0 <= r <= 1.
Proof.
  intros Hw Hh Hw' Hh'. eexists. split; [now apply iou_fbox|].
  pose proof (rinter_bounds x y w h x' y' w' h' Hw Hh) as Hb.
  pose proof (rinter_bounds_r x y w h x' y' w' h' Hw' Hh') as Hb'.
  set (i := rinter x y w h x' y' w' h') in *.
  assert (Hu : 0 < w * h + w' * h' - i) by nra.
  split.
  - apply Rmult_le_pos; [lra|]. left. now apply Rinv_0_lt_compat.
  - apply Rmult_le_reg_r with (w * h + w' * h' - i); [exact Hu|].
    unfold Rdiv. rewrite Rmult_assoc, Rinv_l by lra. nra.
Qed.

Lemma iou_self x y w h :
  0 < w -> 0 < h -> iou (fbox x y w h) (fbox x y w h) = Fin 1.
Proof.
  intros Hw Hh. rewrite iou_fbox by assumption.
  rewrite rinter_self by assumption. f_equal. field. nra.
Qed.

Lemma ssqrt_fin (r : R) : 0 <= r -> ssqrt (Fin r) = Fin (sqrt r).
Proof.
  intros H. simpl. destruct (Rsign r) eqn:E; try reflexivity.
  apply Rsign_Lt in E. lra.
Qed.

Lemma sum_squares_nonneg (a b : R) : 0 <= a * a + b * b.
Proof.
  pose proof (Rle_0_sqr a) as Ha. pose proof (Rle_0_sqr b) as Hb.
  unfold Rsqr in *. lra.
Qed.

Lemma center_distance_fbox x y w h x' y' w' h' :
  center_distance (fbox x y w h) (fbox x' y' w' h')
    = Fin (sqrt ((x - x') * (x - x') + (y - y') * (y - y'))).
Proof.
  unfold center_distance, fbox, pow2; cbn [b0 b1 ssub sopp sadd smul].
  rewrite ssqrt_fin by apply sum_squares_nonneg. reflexivity.
Qed.

Lemma center_distance_self x y w h :
  center_distance (fbox x y w h) (fbox x y w h) = Fin 0.
Proof.
  rewrite center_distance_fbox. f_equal.
  replace ((x - x) * (x - x) + (y - y) * (y - y)) with 0 by lra.
  apply sqrt_0.
Qed.

Lemma diag_fbox x y w h :
  diag (fbox x y w h) = Fin (sqrt (w * w + h * h)).
Proof.
  unfold diag, fbox, pow2; cbn [b2 b3 sadd smul].
  rewrite ssqrt_fin by apply sum_squares_nonneg. reflexivity.
Qed.

Lemma of_corners_fin lx ly hx hy :
  of_corners (Fin lx) (Fin ly) (Fin hx) (Fin hy)
    = fbox ((lx + hx) / 2) ((ly + hy) / 2) (hx - lx) (hy - ly).
Proof.
  unfold of_corners. cbn [sadd ssub sopp]. now rewrite !half_fin.
Qed.

Lemma mbr_fbox x y w h x' y' w' h' :
  mbr (fbox x y w h) (fbox x' y' w' h')
    = fbox ((Rmin (x - w / 2) (x' - w' / 2) + Rmax (x + w / 2) (x' + w' / 2)) / 2)
           ((Rmin (y - h / 2) (y' - h' / 2) + Rmax (y + h / 2) (y' + h' / 2)) / 2)
           (Rmax (x + w / 2) (x' + w' / 2) - Rmin (x - w / 2) (x' - w' / 2))
           (Rmax (y + h / 2) (y' + h' / 2) - Rmin (y - h / 2) (y' - h' / 2)).
Proof.
  unfold mbr. rewrite !x1_fbox, !x2_fbox, !y1_fbox, !y2_fbox.
  cbn [smin smax]. apply of_corners_fin.
Qed.

(** The diagonal of the rectangle around two boxes of positive size is a
    positive number. *)
Lemma diag_mbr_pos x y w h x' y' w' h' :
  0 < w -> 0 < h ->
  exists g, diag (mbr (fbox x y w h) (fbox x' y' w' h')) = Fin g /\ 0 < g.
Proof.
  intros Hw Hh. rewrite mbr_fbox, diag_fbox. eexists; split; [reflexivity|].
  apply sqrt_lt_R0.
  set (W := Rmax (x + w / 2) (x' + w' / 2) - Rmin (x - w / 2) (x' - w' / 2)).
  set (H := Rmax (y + h / 2) (y' + h' / 2) - Rmin (y - h / 2) (y' - h' / 2)).
  assert (HW : 0 < W) by (unfold W; minmax).
  pose proof (Rle_0_sqr H) as HH. unfold Rsqr in HH.
  assert (0 < W * W) by now apply Rmult_lt_0_compat.
  lra.
Qed.

End SpecGeometryFacts.

(** ** Order-independence of the sequence aggregates *)

Module SpecGeometryPerm.

Import ScalarFacts SpecGeometry.

Lemma overlap_comm (l h l' h' : scalar) :
  overlap l h l' h' = overlap l' h' l h.
Proof. unfold overlap. now rewrite (smin_comm h h'), (smax_comm l l'). Qed.

Lemma inter_comm (a b : box) : inter a b = inter b a.
Proof.
  unfold inter.
  now rewrite (overlap_comm (x1 a)), (overlap_comm (y1 a)).
Qed.

Lemma sadd_swap_inner (c a b s : scalar) :
  sadd (sadd c b) (sadd a s) = sadd (sadd c a) (sadd b s).
Proof.
  rewrite <- !sadd_assoc. f_equal.
  rewrite !sadd_assoc. now rewrite (sadd_comm b a).
Qed.

Lemma sum_si_perm (l l' : list box) :
  Permutation l l' -> sum_si l = sum_si l'.
Proof.
  intros P.
  induction P as [| x l l' P IH | x y l | l l' l'' P1 IH1 P2 IH2].
  - reflexivity.
  - cbn [sum_si]. rewrite IH.
    now rewrite (ssum_perm _ _ (Permutation_map (inter x) P)).
  - cbn [sum_si map].
    change (ssum (inter y x :: map (inter y) l))
      with (sadd (inter y x) (ssum (map (inter y) l))).
    change (ssum (inter x y :: map (inter x) l))
      with (sadd (inter x y) (ssum (map (inter x) l))).
    rewrite (inter_comm y x). apply sadd_swap_inner.
  - now rewrite IH1.
Qed.

Lemma mbr_all_perm (l l' : list box) :
  Permutation l l' -> mbr_all l = mbr_all l'.
Proof.
  intros P. unfold mbr_all.
  rewrite (fold_right_perm smin PInf smin_comm smin_assoc _ _
             (Permutation_map x1 P)).
  rewrite (fold_right_perm smin PInf smin_comm smin_assoc _ _
             (Permutation_map y1 P)).
  rewrite (fold_right_perm smax NInf smax_comm smax_assoc _ _
             (Permutation_map x2 P)).
  rewrite (fold_right_perm smax NInf smax_comm smax_assoc _ _
             (Permutation_map y2 P)).
  reflexivity.
Qed.

End SpecGeometryPerm.

Section LossValues.

Variable geo : Geometry.

Lemma losses_values (output target : list box) (ignore_zero : bool) :
  length output = length target ->
  map (fun L : loss_fn => L output target ignore_zero) (losses geo)
    = loss_values geo (kept output target ignore_zero).
Proof.
  intros H. unfold losses, loss_values. cbn [map].
  rewrite (iou_loss_terms geo _ _ ignore_zero H).
  rewrite (distance_iou_loss_terms geo _ _ ignore_zero H).
  rewrite (complete_iou_loss_terms geo _ _ ignore_zero H).
  rewrite (tile_iou_loss_terms geo _ _ ignore_zero H).
  reflexivity.
Qed.

Lemma combine_fst_snd_id {A B : Type} (l : list (A * B)) :
  combine (map fst l) (map snd l) = l.
Proof.
  induction l as [|[a b] l IH]; simpl; [reflexivity | now rewrite IH].
Qed.

Lemma losses_values_pairs (pairs : list (box * box)) :
  map (fun L : loss_fn => L (map snd pairs) (map fst pairs) false) (losses geo)
    = loss_values geo pairs.
Proof.
  rewrite losses_values by now rewrite !length_map.
  unfold kept. now rewrite combine_fst_snd_id.
Qed.

End LossValues.

Lemma sgt0_positive (c : scalar) : sgt0 c = true <-> positive c.
Proof.
  unfold positive. destruct c as [r| | |]; simpl.
  - destruct (Rsign r) eqn:E; split; intros H; try discriminate;
      try reflexivity.
    + destruct H as [H | [r' [H Hr]]]; [discriminate|].
      injection H as <-. apply ScalarFacts.Rsign_Gt in Hr. congruence.
    + destruct H as [H | [r' [H Hr]]]; [discriminate|].
      injection H as <-. apply ScalarFacts.Rsign_Gt in Hr. congruence.
    + right. exists r. split; [reflexivity|]. now apply ScalarFacts.Rsign_Gt.
  - split; auto.
  - split; [discriminate|]. intros [H | [r [H _]]]; discriminate.
  - split; [discriminate|]. intros [H | [r [H _]]]; discriminate.
Qed.

Lemma any_gt0_positive (t : box) :
  any_gt0 t = true <-> exists c, In c (coords t) /\ positive c.
Proof.
  unfold any_gt0. rewrite existsb_exists.
  split; intros [c [Hin Hc]]; exists c; split; auto;
    now apply sgt0_positive.
Qed.

Lemma nonneg_sgt0 (c : scalar) : fin_nonneg c -> sgt0 c = negb (is_zero c).
Proof.
  intros [r [-> Hr]]. simpl. destruct (Rsign r) eqn:E; try reflexivity.
  apply ScalarFacts.Rsign_Lt in E. lra.
Qed.

Lemma nonneg_row_any_gt0 (t : box) :
  Forall fin_nonneg (coords t) -> any_gt0 t = negb (is_sentinel t).
Proof.
  unfold any_gt0, is_sentinel.
  induction (coords t) as [|c l IH]; intros H; [reflexivity|].
  inversion H as [|c' l' Hc Hl]; subst. cbn [existsb forallb].
  rewrite (nonneg_sgt0 c Hc), (IH Hl). now destruct (is_zero c).
Qed.

(** ** The scenario of the specification, evaluated *)

Module Scenario.

Import ScalarFacts SpecGeometry SpecGeometryFacts.
Local Open Scope R_scope.

Lemma rinter_target_pred :
  rinter (1 / 10) (1 / 10) (1 / 8) (1 / 5) (1 / 10) (1 / 10) (1 / 10) (1 / 10)
    = 1 / 100.
Proof. unfold rinter. minmax. Qed.

Lemma rinter_pred_target :
  rinter (1 / 10) (1 / 10) (1 / 10) (1 / 10) (1 / 10) (1 / 10) (1 / 8) (1 / 5)
    = 1 / 100.
Proof. unfold rinter. minmax. Qed.

Lemma iou_target_pred : iou scenario_target scenario_pred = Fin (2 / 5).
Proof.
  unfold scenario_target, scenario_pred. rewrite iou_fbox by lra.
  rewrite rinter_target_pred. f_equal. lra.
Qed.

Lemma iou_pred_target : iou scenario_pred scenario_target = Fin (2 / 5).
Proof.
  unfold scenario_target, scenario_pred. rewrite iou_fbox by lra.
  rewrite rinter_pred_target. f_equal. lra.
Qed.

Lemma any_gt0_fbox_w x y w h : 0 < w -> any_gt0 (fbox x y w h) = true.
Proof.
  intros Hw. unfold any_gt0, fbox, coords; cbn [b0 b1 b2 b3 existsb].
  assert (E : sgt0 (Fin w) = true) by (simpl; now rewrite Rsign_pos).
  rewrite E. now rewrite !orb_true_r.
Qed.

Lemma any_gt0_negative_row : any_gt0 negative_row = false.
Proof.
  unfold any_gt0, negative_row, fbox, coords; cbn [b0 b1 b2 b3 existsb sgt0].
  rewrite Rsign_zero, (Rsign_neg (-1)) by lra. reflexivity.
Qed.

Lemma is_sentinel_negative_row : is_sentinel negative_row = false.
Proof.
  unfold is_sentinel, negative_row, fbox, coords;
    cbn [b0 b1 b2 b3 forallb is_zero].
  rewrite (Rsign_neg (-1)) by lra. reflexivity.
Qed.

Lemma any_gt0_zero_box : any_gt0 zero_box = false.
Proof.
  unfold any_gt0, zero_box, coords; cbn [b0 b1 b2 b3 existsb sgt0].
  rewrite Rsign_zero. reflexivity.
Qed.

Lemma iou_negative_row (p : box) : iou negative_row p = Fin 0.
Proof.
  unfold iou, degenerate, negative_row, fbox; cbn [b2 b3 is_zero].
  rewrite Rsign_zero. reflexivity.
Qed.

Lemma mean_singleton (x : R) : mean [Fin x] = Fin x.
Proof. apply (mean_repeat_fin x 1). lia. Qed.

End Scenario.

(** ** Properties of the specification *)


(** C1: after padding filtering, [tile_iou_loss] is the mean over the
    positions of the per-position terms of [complete_iou_loss], plus
    [1 - iou(mbr(prediction), mbr(target))], plus the absolute difference of
    the tile scores of the two sequences, where the tile score of a sequence
    [S] is [sum_si(S)/area(mbr(S)) + |1 - sum(area)/area(mbr(S))|]; the
    sequence-level terms stand outside the mean, so they are added once per
    sample. *)
Theorem tile_iou_loss_decomposition (geo : Geometry)
  (output target : list box) (ignore_zero : bool) :
  length output = length target ->
  let pairs := kept output target ignore_zero in
  let pred := map snd pairs in
  let tgt := map fst pairs in
  let score := fun S : list box =>
    sadd (sdiv (sum_si geo S) (area geo (mbr_all geo S)))
         (sabs (ssub (Fin 1)
                  (sdiv (ssum (map (area geo) S)) (area geo (mbr_all geo S))))) in
  complete_iou_loss geo output target ignore_zero
    = Ok (mean (terms (ciou_term geo) pairs))
  /\ tile_iou_loss geo output target ignore_zero
    = Ok (sadd (mean (terms (ciou_term geo) pairs))
            (sadd (ssub (Fin 1) (iou geo (mbr_all geo pred) (mbr_all geo tgt)))
                  (sabs (ssub (score pred) (score tgt))))).
Proof.
  intros H pairs pred tgt score. split.
  - apply complete_iou_loss_terms, H.
  - rewrite (tile_iou_loss_terms geo _ _ ignore_zero H). reflexivity.
Qed.

Lemma tile_iou_loss_decomposition_witness :
  complete_iou_loss spec_geo [scenario_pred] [scenario_target] true
    = Ok (mean (terms (ciou_term spec_geo)
                  (kept [scenario_pred] [scenario_target] true)))
  /\ tile_iou_loss spec_geo [scenario_pred] [scenario_target] true
    = Ok (sadd (mean (terms (ciou_term spec_geo)
                        (kept [scenario_pred] [scenario_target] true)))
            (seq_term spec_geo
               (map snd (kept [scenario_pred] [scenario_target] true))
               (map fst (kept [scenario_pred] [scenario_target] true)))).
Proof.
  apply (tile_iou_loss_decomposition spec_geo
           [scenario_pred] [scenario_target] true).
  reflexivity.
Defined.

(** C2, as stated, fails: a target row that is not the all-zero sentinel
    but has no positive coordinate is discarded as well, and the loss then
    differs from the loss on the sequence without its all-zero rows. *)
Lemma padding_filter_drops_nonzero_row :
  is_sentinel negative_row = false
  /\ kept [scenario_pred] [negative_row] true = []
  /\ iou_loss spec_geo [scenario_pred] [negative_row] true = Ok NaN
  /\ iou_loss spec_geo
       (map snd (drop_sentinels [scenario_pred] [negative_row]))
       (map fst (drop_sentinels [scenario_pred] [negative_row])) false
     = Ok (Fin 1).
Proof.
  assert (K : kept [scenario_pred] [negative_row] true = []).
  { unfold kept. cbn [combine filter fst].
    now rewrite Scenario.any_gt0_negative_row. }
  assert (D : drop_sentinels [scenario_pred] [negative_row]
              = [(negative_row, scenario_pred)]).
  { unfold drop_sentinels. cbn [combine filter fst].
    now rewrite Scenario.is_sentinel_negative_row. }
  repeat split.
  - apply Scenario.is_sentinel_negative_row.
  - exact K.
  - rewrite iou_loss_terms by reflexivity. rewrite K.
    cbn [terms map]. now rewrite ScalarFacts.mean_nil.
  - rewrite D. cbn [map fst snd].
    rewrite iou_loss_terms by reflexivity.
    unfold kept, terms, iou_term.
    cbn [combine map fst snd iou spec_geo].
    rewrite Scenario.iou_negative_row. cbn [ssub sopp sadd].
    rewrite Scenario.mean_singleton. do 2 f_equal. lra.
Qed.

(** C2, amended: with [ignore_zero=True] a position is discarded from both
    sequences exactly when its target row has no coordinate greater than
    zero (the prediction is not consulted), and each of the four losses
    equals the same loss, without filtering, on the remaining subsequence;
    for targets with non-negative coordinates the discarded rows are exactly
    the all-zero rows; with [ignore_zero=False] every position is included. *)
Theorem ignore_zero_filters_by_target (geo : Geometry)
  (output target : list box) :
  length output = length target ->
  let pairs := filter (fun tp => any_gt0 (fst tp)) (combine target output) in
  map (fun L : loss_fn => L output target true) (losses geo)
    = map (fun L : loss_fn => L (map snd pairs) (map fst pairs) false)
        (losses geo)
  /\ map (fun L : loss_fn => L output target false) (losses geo)
     = loss_values geo (combine target output)
  /\ (Forall (fun t => Forall fin_nonneg (coords t)) target ->
      pairs = drop_sentinels output target).
Proof.
  intros H pairs. repeat split.
  - rewrite (losses_values geo _ _ true H), losses_values_pairs. reflexivity.
  - apply (losses_values geo _ _ false H).
  - intros Hn. unfold pairs, drop_sentinels. apply filter_ext_in.
    intros [t p] Hin. cbn [fst]. apply nonneg_row_any_gt0.
    rewrite Forall_forall in Hn. apply Hn.
    eapply in_combine_l, Hin.
Qed.

Lemma ignore_zero_filters_by_target_witness :
  let output := [scenario_pred; scenario_pred] in
  let target := [scenario_target; zero_box] in
  let pairs := filter (fun tp => any_gt0 (fst tp)) (combine target output) in
  map (fun L : loss_fn => L output target true) (losses spec_geo)
    = map (fun L : loss_fn => L (map snd pairs) (map fst pairs) false)
        (losses spec_geo)
  /\ map (fun L : loss_fn => L output target false) (losses spec_geo)
     = loss_values spec_geo (combine target output)
  /\ (Forall (fun t => Forall fin_nonneg (coords t)) target ->
      pairs = drop_sentinels output target).
Proof.
  apply (ignore_zero_filters_by_target spec_geo
           [scenario_pred; scenario_pred] [scenario_target; zero_box]).
  reflexivity.
Defined.

Lemma kept_substitute (output target target' : list box) :
  Forall2 (fun t t' => t' = t \/ (any_gt0 t = false /\ any_gt0 t' = false))
    target target' ->
  kept output target' true = kept output target true.
Proof.
  intros F. revert output. unfold kept.
  induction F as [|t t' target target' Ht F IH]; intros output;
    [reflexivity|].
  destruct output as [|o output]; [reflexivity|].
  cbn [combine filter fst]. rewrite IH.
  destruct Ht as [-> | [E E']]; [reflexivity|]. now rewrite E, E'.
Qed.

Lemma not_positive_any_gt0 (t : box) :
  (forall c, In c (coords t) -> ~ positive c) -> any_gt0 t = false.
Proof.
  intros H. destruct (any_gt0 t) eqn:E; [|reflexivity].
  apply any_gt0_positive in E. destruct E as [c [Hin Hc]].
  now destruct (H c Hin).
Qed.

(** C10: with [ignore_zero=True] every loss keeps a position if and only if
    some coordinate of its target row is greater than zero; a target row
    without a positive coordinate (one with negative coordinates, say) is
    therefore excluded just as the all-zero sentinel is: putting the
    sentinel in its place leaves each loss unchanged. *)
Theorem ignore_zero_keeps_positive_rows (geo : Geometry)
  (output target : list box) :
  length output = length target ->
  (forall t, any_gt0 t = true <-> exists c, In c (coords t) /\ positive c)
  /\ map (fun L : loss_fn => L output target true) (losses geo)
     = loss_values geo
         (filter (fun tp => any_gt0 (fst tp)) (combine target output))
  /\ (forall target',
        Forall2 (fun t t' =>
                   t' = t \/
                   ((forall c, In c (coords t) -> ~ positive c)
                    /\ t' = zero_box)) target target' ->
        map (fun L : loss_fn => L output target' true) (losses geo)
        = map (fun L : loss_fn => L output target true) (losses geo)).
Proof.
  intros H. repeat split.
  - apply any_gt0_positive.
  - apply any_gt0_positive.
  - apply (losses_values geo _ _ true H).
  - intros target' F.
    assert (H' : length output = length target')
      by (rewrite H; apply (Forall2_length F)).
    rewrite (losses_values geo _ _ true H), (losses_values geo _ _ true H').
    f_equal. apply kept_substitute.
    eapply Forall2_impl; [|exact F]. cbn beta.
    intros t t' [-> | [Hn ->]]; [now left | right].
    split; [now apply not_positive_any_gt0 | apply Scenario.any_gt0_zero_box].
Qed.

Lemma ignore_zero_keeps_positive_rows_witness :
  let output := [scenario_pred; scenario_pred] in
  let target := [scenario_target; negative_row] in
  (forall t, any_gt0 t = true <-> exists c, In c (coords t) /\ positive c)
  /\ map (fun L : loss_fn => L output target true) (losses spec_geo)
     = loss_values spec_geo
         (filter (fun tp => any_gt0 (fst tp)) (combine target output))
  /\ (forall target',
        Forall2 (fun t t' =>
                   t' = t \/
                   ((forall c, In c (coords t) -> ~ positive c)
                    /\ t' = zero_box)) target target' ->
        map (fun L : loss_fn => L output target' true) (losses spec_geo)
        = map (fun L : loss_fn => L output target true) (losses spec_geo)).
Proof.
  apply (ignore_zero_keeps_positive_rows spec_geo
           [scenario_pred; scenario_pred] [scenario_target; negative_row]).
  reflexivity.
Defined.

(** C4, as stated, fails: on a sequence whose only target row is the
    padding sentinel the filter leaves nothing, and each of the three
    pairwise losses is [NaN], whatever the geometry is; nothing guards the
    mean over the empty set. *)
Lemma all_padding_gives_nan :
  kept [scenario_pred] [zero_box] true = []
  /\ (forall geo : Geometry,
        map (fun L : loss_fn => L [scenario_pred] [zero_box] true)
            (pairwise_losses geo)
        = [Ok NaN; Ok NaN; Ok NaN]).
Proof.
  assert (K : kept [scenario_pred] [zero_box] true = []).
  { unfold kept. cbn [combine filter fst].
    now rewrite Scenario.any_gt0_zero_box. }
  split; [exact K|]. intros geo.
  unfold pairwise_losses. cbn [map].
  rewrite iou_loss_terms, distance_iou_loss_terms, complete_iou_loss_terms
    by reflexivity.
  rewrite K. unfold terms. cbn [map]. now rewrite ScalarFacts.mean_nil.
Qed.

(** C4, amended: when [ignore_zero=True] filters the sequence down to
    empty, the loss functions have no guard: [iou_loss],
    [distance_iou_loss] and [complete_iou_loss] return the mean over the
    empty set, which is [NaN]. *)
Theorem empty_after_filtering_is_nan (geo : Geometry)
  (output target : list box) :
  length output = length target ->
  kept output target true = [] ->
  map (fun L : loss_fn => L output target true) (pairwise_losses geo)
    = [Ok NaN; Ok NaN; Ok NaN].
Proof.
  intros H K. unfold pairwise_losses. cbn [map].
  rewrite (iou_loss_terms geo _ _ true H).
  rewrite (distance_iou_loss_terms geo _ _ true H).
  rewrite (complete_iou_loss_terms geo _ _ true H).
  rewrite K. unfold terms. cbn [map]. now rewrite ScalarFacts.mean_nil.
Qed.

Lemma empty_after_filtering_is_nan_witness :
  map (fun L : loss_fn =>
         L [scenario_pred; scenario_pred] [zero_box; zero_box] true)
      (pairwise_losses spec_geo)
    = [Ok NaN; Ok NaN; Ok NaN].
Proof.
  apply (empty_after_filtering_is_nan spec_geo
           [scenario_pred; scenario_pred] [zero_box; zero_box]).
  - reflexivity.
  - unfold kept. cbn [combine filter fst].
    rewrite Scenario.any_gt0_zero_box. reflexivity.
Defined.




Lemma batch_losses_ok {Out Tgt : Type} (loss_func : Out -> Tgt -> result scalar)
  (outputs : list Out) (targets : list Tgt) (ls : list scalar) :
  length outputs = length targets ->
  Forall2 (fun ot l => loss_func (fst ot) (snd ot) = Ok l)
    (combine outputs targets) ls ->
  batch_losses loss_func outputs targets = Ok ls.
Proof.
  revert outputs ls.
  induction targets as [|t targets IH]; intros [|o outputs] ls H F;
    simpl in H; try discriminate.
  - inversion F. reflexivity.
  - injection H as H. cbn [combine] in F.
    inversion F as [|ot l pairs ls' Hl F']; subst.
    cbn [batch_losses fst snd] in *. rewrite Hl. cbn [bind].
    now rewrite (IH outputs ls' H F').
Qed.

Lemma batch_mean_ok {Out Tgt : Type} (loss_func : Out -> Tgt -> result scalar)
  (outputs : list Out) (targets : list Tgt) (ls : list scalar) :
  length outputs = length targets ->
  targets <> [] ->
  Forall2 (fun ot l => loss_func (fst ot) (snd ot) = Ok l)
    (combine outputs targets) ls ->
  batch_mean loss_func outputs targets = Ok (mean ls).
Proof.
  intros H Hne F. unfold batch_mean.
  rewrite (batch_losses_ok loss_func outputs targets ls H F). cbn [bind].
  destruct ls as [|l ls]; [|reflexivity].
  inversion F as [E|]. destruct targets as [|t targets]; [contradiction|].
  destruct outputs; discriminate.
Qed.

(** C3: [structure_loss] returns the pair (classification loss, box loss),
    not their sum; when the per-sample losses return, the first component is
    the arithmetic mean over the samples of [cls_loss] (called with the same
    keyword arguments for every sample), the second the arithmetic mean over
    the samples of [tile_iou_loss]. *)
Theorem structure_loss_pair_of_batch_means (geo : Geometry)
  (Logits Labels Weight : Type)
  (cross_entropy :
     Logits -> Labels -> nat -> scalar -> option Weight -> result scalar)
  (cls_output : list Logits) (box_output : list (list box))
  (cls_target : list Labels) (box_target : list (list box))
  (ignore_zero : bool) (pad_idx : nat) (smoothing : scalar)
  (weight : option Weight) (cls_losses box_losses : list scalar) :
  length cls_output = length cls_target ->
  length box_output = length box_target ->
  cls_target <> [] ->
  box_target <> [] ->
  Forall2 (fun ot l =>
             cross_entropy (fst ot) (snd ot) pad_idx smoothing weight = Ok l)
    (combine cls_output cls_target) cls_losses ->
  Forall2 (fun ot l => tile_iou_loss geo (fst ot) (snd ot) ignore_zero = Ok l)
    (combine box_output box_target) box_losses ->
  structure_loss geo cross_entropy (cls_output, box_output)
    (cls_target, box_target) ignore_zero pad_idx smoothing weight
  = Ok (mean cls_losses, mean box_losses).
Proof.
  intros Hc Hb Hcne Hbne Fc Fb. unfold structure_loss.
  rewrite (batch_mean_ok (cls_loss cross_entropy pad_idx smoothing weight)
             cls_output cls_target cls_losses Hc Hcne Fc).
  cbn [bind].
  rewrite (batch_mean_ok (fun o t => tile_iou_loss geo o t ignore_zero)
             box_output box_target box_losses Hb Hbne Fb).
  reflexivity.
Qed.

(** A batch of two samples whose classification losses are 1 and 3: the
    first component of the result is their mean, 2. *)
Lemma structure_loss_pair_of_batch_means_witness :
  exists box_loss,
    structure_loss spec_geo
      (fun (o : scalar) (_ : unit) (_ : nat) (_ : scalar) (_ : option unit) =>
         Ok o)
      ([Fin 1; Fin 3],
       [[scenario_pred]; [scenario_pred; scenario_pred]])
      ([tt; tt],
       [[scenario_target]; [scenario_target; zero_box]])
      true 0%nat (Fin (1 / 100)) None
    = Ok (Fin 2, box_loss).
Proof.
  eexists.
  rewrite (structure_loss_pair_of_batch_means spec_geo scalar unit unit
             (fun o _ _ _ _ => Ok o)
             [Fin 1; Fin 3] [[scenario_pred]; [scenario_pred; scenario_pred]]
             [tt; tt] [[scenario_target]; [scenario_target; zero_box]]
             true 0%nat (Fin (1 / 100)) None
             [Fin 1; Fin 3]
             [sample_loss spec_geo [scenario_pred] [scenario_target] true;
              sample_loss spec_geo [scenario_pred; scenario_pred]
                [scenario_target; zero_box] true]).
  - f_equal. f_equal. unfold mean, ssum. cbn [fold_right sadd length INR].
    rewrite ScalarFacts.sdiv_fin by lra. f_equal. lra.
  - reflexivity.
  - reflexivity.
  - discriminate.
  - discriminate.
  - repeat constructor.
  - repeat constructor; cbn [fst snd]; apply tile_iou_loss_terms; reflexivity.
Defined.

Lemma Permutation_filter_compat {A : Type} (f : A -> bool) (l l' : list A) :
  Permutation l l' -> Permutation (filter f l) (filter f l').
Proof.
  intros P.
  induction P as [| x l l' P IH | x y l | l l' l'' P1 IH1 P2 IH2];
    cbn [filter].
  - constructor.
  - destruct (f x); [now constructor | exact IH].
  - destruct (f x), (f y); try apply Permutation_refl. apply perm_swap.
  - eapply Permutation_trans; eassumption.
Qed.

Lemma kept_perm (output target output' target' : list box) (iz : bool) :
  Permutation (combine target output) (combine target' output') ->
  Permutation (kept output target iz) (kept output' target' iz).
Proof.
  intros P. unfold kept. destruct iz; [|exact P].
  now apply Permutation_filter_compat.
Qed.

(** C7, as stated, fails on the numbers the tensors hold.  In binary64
    arithmetic the mean over the positions depends on the order in which
    the terms are added: on three target squares and three predicted
    squares around the same centers, moving the first position of both
    sequences to the end changes the last digit of [tile_iou_loss]
    (0.94366013071895383 before, 0.94366013071895372 after), whatever number
    [torch.arctan] returns at the aspect ratio 1 of the squares. *)
Lemma tile_iou_loss_rounding_depends_on_order :
  Permutation (combine Binary64.tiles_target Binary64.tiles_pred)
    (combine (rotate Binary64.tiles_target) (rotate Binary64.tiles_pred))
  /\ Binary64.tile_iou_loss Binary64.spec_geo (fun _ => Binary64.arctan_one)
       Binary64.tiles_pred Binary64.tiles_target true
     = Ok Binary64.loss_in_order
  /\ Binary64.tile_iou_loss Binary64.spec_geo (fun _ => Binary64.arctan_one)
       (rotate Binary64.tiles_pred) (rotate Binary64.tiles_target) true
     = Ok Binary64.loss_rotated
  /\ ~ (exists arctan : PrimFloat.float -> PrimFloat.float,
          PrimFloat.sub (arctan PrimFloat.one) (arctan PrimFloat.one)
          = PrimFloat.zero
          /\ Binary64.tile_iou_loss Binary64.spec_geo arctan
               (rotate Binary64.tiles_pred) (rotate Binary64.tiles_target)
               true
             = Binary64.tile_iou_loss Binary64.spec_geo arctan
                 Binary64.tiles_pred Binary64.tiles_target true).
Proof.
  split; [|split; [|split]].
  - unfold Binary64.tiles_target, Binary64.tiles_pred, rotate.
    cbn [combine app]. apply (Permutation_cons_append [_; _]).
  - vm_compute. reflexivity.
  - vm_compute. reflexivity.
  - intros [arctan [H E]]. unfold PrimFloat.one, PrimFloat.zero in H.
    vm_compute in E. rewrite H in E.
    vm_compute in E. discriminate E.
Qed.

(** C7, amended: in exact arithmetic, and for a geometry whose aggregates
    over a whole sequence ([mbr] and [sum_si]) do not depend on its order,
    [tile_iou_loss] does not change when one permutation is applied to the
    prediction and to the target sequence alike. *)
Theorem tile_iou_loss_permutation_invariant (geo : Geometry)
  (output target output' target' : list box) (ignore_zero : bool) :
  (forall l l', Permutation l l' -> mbr_all geo l = mbr_all geo l') ->
  (forall l l', Permutation l l' -> sum_si geo l = sum_si geo l') ->
  length output = length target ->
  length output' = length target' ->
  Permutation (combine target output) (combine target' output') ->
  tile_iou_loss geo output' target' ignore_zero
    = tile_iou_loss geo output target ignore_zero.
Proof.
  intros Hmbr Hssi H H' P.
  rewrite (tile_iou_loss_terms geo _ _ ignore_zero H).
  rewrite (tile_iou_loss_terms geo _ _ ignore_zero H').
  pose proof (kept_perm output target output' target' ignore_zero P) as K.
  set (k := kept output target ignore_zero) in *.
  set (k' := kept output' target' ignore_zero) in *.
  assert (Ps : Permutation (map snd k) (map snd k'))
    by now apply Permutation_map.
  assert (Pf : Permutation (map fst k) (map fst k'))
    by now apply Permutation_map.
  assert (Hscore : forall s s', Permutation s s' ->
                                tile_score geo s = tile_score geo s').
  { intros s s' Q. unfold tile_score, coverage_gap.
    rewrite (Hmbr _ _ Q), (Hssi _ _ Q).
    now rewrite (ScalarFacts.ssum_perm _ _ (Permutation_map (area geo) Q)). }
  f_equal. f_equal.
  - symmetry. apply ScalarFacts.mean_perm. unfold terms.
    now apply Permutation_map.
  - unfold seq_term.
    now rewrite (Hmbr _ _ Ps), (Hmbr _ _ Pf), (Hscore _ _ Ps), (Hscore _ _ Pf).
Qed.

(** Three positions, the first moved to the end. *)
Lemma tile_iou_loss_permutation_invariant_witness :
  tile_iou_loss spec_geo
    (rotate [scenario_pred; fbox 1 1 2 4; fbox 3 3 2 2])
    (rotate [scenario_target; fbox 1 1 2 2; fbox 3 3 1 1]) true
  = tile_iou_loss spec_geo [scenario_pred; fbox 1 1 2 4; fbox 3 3 2 2]
      [scenario_target; fbox 1 1 2 2; fbox 3 3 1 1] true.
Proof.
  apply (tile_iou_loss_permutation_invariant spec_geo
           [scenario_pred; fbox 1 1 2 4; fbox 3 3 2 2]
           [scenario_target; fbox 1 1 2 2; fbox 3 3 1 1]
           (rotate [scenario_pred; fbox 1 1 2 4; fbox 3 3 2 2])
           (rotate [scenario_target; fbox 1 1 2 2; fbox 3 3 1 1]) true).
  - apply SpecGeometryPerm.mbr_all_perm.
  - apply SpecGeometryPerm.sum_si_perm.
  - reflexivity.
  - reflexivity.
  - unfold rotate. cbn [combine app].
    apply (Permutation_cons_append [_; _]).
Defined.

Section Alpha.

Variable geo : Geometry.
Local Open Scope R_scope.




End Alpha.




Lemma kept_all (output target : list box) (ignore_zero : bool) :
  Forall (fun t => any_gt0 t = true) target ->
  kept output target ignore_zero = combine target output.
Proof.
  intros F. unfold kept. destruct ignore_zero; [|reflexivity].
  revert output. induction F as [|t target Ht F IH]; intros [|o output];
    try reflexivity.
  cbn [combine filter fst]. now rewrite Ht, IH.
Qed.

Lemma terms_diagonal (f : box -> box -> scalar) (l : list box) :
  terms f (combine l l) = map (fun b => f b b) l.
Proof.
  unfold terms. induction l as [|b l IH]; [reflexivity|].
  cbn [combine map fst snd]. now rewrite IH.
Qed.

Lemma mean_zeros (ts : list scalar) :
  Forall (eq (Fin 0)) ts -> ts <> [] -> mean ts = Fin 0.
Proof.
  intros F Hne. rewrite (Forall_eq_repeat F).
  apply ScalarFacts.mean_repeat_fin.
  destruct ts; [contradiction | simpl; lia].
Qed.

Section SelfPairs.

Variable geo : Geometry.
Local Open Scope R_scope.

Lemma iou_term_self (a : box) : coincides geo a -> iou_term geo a a = Fin 0.
Proof.
  intros [Hi _]. unfold iou_term. rewrite Hi.
  cbn [ssub sopp sadd]. f_equal. lra.
Qed.

Lemma diou_term_self (a : box) : coincides geo a -> diou_term geo a a = Fin 0.
Proof.
  intros Ha. unfold diou_term. rewrite (iou_term_self a Ha).
  destruct Ha as [_ [Hc [d [Hd Hd0]]]]. unfold dist_term.
  rewrite Hc, Hd, ScalarFacts.sdiv_fin by exact Hd0.
  cbn [sadd]. f_equal. field. exact Hd0.
Qed.

Lemma self_terms_vanish (f : box -> box -> scalar) (boxes : list box)
  (ignore_zero : bool) :
  boxes <> [] ->
  (forall a, coincides geo a -> f a a = Fin 0) ->
  Forall (coincides geo) boxes ->
  (ignore_zero = true -> Forall (fun a => any_gt0 a = true) boxes) ->
  mean (terms f (kept boxes boxes ignore_zero)) = Fin 0.
Proof.
  intros Hne Hf F K.
  assert (E : kept boxes boxes ignore_zero = combine boxes boxes).
  { destruct ignore_zero; [|reflexivity]. now apply kept_all, K. }
  rewrite E, terms_diagonal. apply mean_zeros.
  - apply Forall_map. eapply Forall_impl; [|exact F].
    intros a Ha. cbn beta. symmetry. now apply Hf.
  - destruct boxes; [contradiction | discriminate].
Qed.

Lemma dropped_row_is_nan (a : box) :
  any_gt0 a = false ->
  iou_loss geo [a] [a] true = Ok NaN
  /\ distance_iou_loss geo [a] [a] true = Ok NaN.
Proof.
  intros Ha.
  rewrite iou_loss_terms, distance_iou_loss_terms by reflexivity.
  unfold kept. cbn [combine filter fst]. rewrite Ha.
  unfold terms. cbn [map]. rewrite ScalarFacts.mean_nil. now split.
Qed.

End SelfPairs.

(** C9, as stated, fails: read as corners [(x1, y1, x2, y2)], the row
    [[-3, -3, -1, -1]] is a square of side 2, a non-degenerate box; none of
    its coordinates is positive, so the default [ignore_zero=True] drops it
    and both losses on the box paired with itself are the mean over the
    empty set, [NaN], whatever the geometry is. *)
Lemma negative_self_pair_is_nan :
  ssub (b2 negative_box) (b0 negative_box) = Fin 2
  /\ ssub (b3 negative_box) (b1 negative_box) = Fin 2
  /\ (forall geo : Geometry,
        iou_loss geo [negative_box] [negative_box] true = Ok NaN
        /\ distance_iou_loss geo [negative_box] [negative_box] true = Ok NaN).
Proof.
  split; [|split].
  - unfold negative_box, fbox. cbn [b0 b2 ssub sopp sadd]. f_equal. lra.
  - unfold negative_box, fbox. cbn [b1 b3 ssub sopp sadd]. f_equal. lra.
  - intros geo. apply dropped_row_is_nan.
    unfold any_gt0, negative_box, fbox, coords.
    cbn [b0 b1 b2 b3 existsb sgt0].
    rewrite (ScalarFacts.Rsign_neg (-3)), (ScalarFacts.Rsign_neg (-1)) by lra.
    reflexivity.
Qed.

(** C9, amended: on a non-empty sequence in which every position pairs a
    box with itself, [iou_loss] and [distance_iou_loss] are exactly 0 when
    the geometry gives, for each box [a], [iou(a, a) = 1],
    [center_distance(a, a) = 0] and a diagonal of [mbr(a, a)] other than 0,
    and when no row is dropped: [ignore_zero] is off or every box has a
    positive coordinate.  A row without a positive coordinate is dropped by
    [ignore_zero=True], and the losses on it alone are [NaN]. *)
Theorem self_pair_losses_vanish (geo : Geometry) (boxes : list box)
  (ignore_zero : bool) :
  boxes <> [] ->
  Forall (fun a =>
            iou geo a a = Fin 1
            /\ center_distance geo a a = Fin 0
            /\ exists d, diag geo (mbr geo a a) = Fin d /\ d <> 0%R) boxes ->
  (ignore_zero = true -> Forall (fun a => any_gt0 a = true) boxes) ->
  (iou_loss geo boxes boxes ignore_zero = Ok (Fin 0)
   /\ distance_iou_loss geo boxes boxes ignore_zero = Ok (Fin 0))
  /\ (forall a,
        any_gt0 a = false ->
        iou_loss geo [a] [a] true = Ok NaN
        /\ distance_iou_loss geo [a] [a] true = Ok NaN).
Proof.
  intros Hne F K. split; [split|].
  - rewrite iou_loss_terms by reflexivity.
    now rewrite (self_terms_vanish geo _ boxes ignore_zero Hne
                   (iou_term_self geo) F K).
  - rewrite distance_iou_loss_terms by reflexivity.
    now rewrite (self_terms_vanish geo _ boxes ignore_zero Hne
                   (diou_term_self geo) F K).
  - apply dropped_row_is_nan.
Qed.

Lemma coincides_fbox (x y w h : R) :
  (0 < w)%R -> (0 < h)%R -> coincides spec_geo (fbox x y w h).
Proof.
  intros Hw Hh. split; [|split].
  - now apply SpecGeometryFacts.iou_self.
  - apply SpecGeometryFacts.center_distance_self.
  - destruct (SpecGeometryFacts.diag_mbr_pos x y w h x y w h Hw Hh)
      as [g [Hg Hg0]].
    exists g. split; [exact Hg | lra].
Qed.

(** Two boxes whose coordinates are binary fractions, each paired with
    itself. *)
Lemma self_pair_losses_vanish_witness :
  iou_loss spec_geo [fbox 1 1 2 4; fbox 3 3 2 2]
    [fbox 1 1 2 4; fbox 3 3 2 2] true = Ok (Fin 0)
  /\ distance_iou_loss spec_geo [fbox 1 1 2 4; fbox 3 3 2 2]
       [fbox 1 1 2 4; fbox 3 3 2 2] true = Ok (Fin 0).
Proof.
  apply (self_pair_losses_vanish spec_geo [fbox 1 1 2 4; fbox 3 3 2 2] true).
  - discriminate.
  - repeat constructor; apply coincides_fbox; lra.
  - intros _. repeat constructor; apply Scenario.any_gt0_fbox_w; lra.
Defined.

(** ** The rows of the scenario *)

Module ScenarioLosses.

Import ScalarFacts SpecGeometryFacts.
Local Open Scope R_scope.

Lemma dist_term_scenario :
  exists q, dist_term spec_geo scenario_target scenario_pred = Fin q /\ 0 <= q.
Proof.
  unfold dist_term, scenario_target, scenario_pred.
  cbn [center_distance diag mbr spec_geo].
  rewrite center_distance_fbox.
  destruct (diag_mbr_pos (1 / 10) (1 / 10) (1 / 8) (1 / 5)
              (1 / 10) (1 / 10) (1 / 10) (1 / 10)) as [g [-> Hg]]; try lra.
  rewrite sdiv_fin by lra. eexists. split; [reflexivity|].
  apply Rmult_le_pos; [apply sqrt_pos|].
  left. now apply Rinv_0_lt_compat.
Qed.

Lemma aspect_value_scenario :
  exists v,
    aspect_value spec_geo scenario_target scenario_pred = Fin v /\ 0 <= v.
Proof.
  unfold aspect_value, four_over_pi2, pow2, scenario_target, scenario_pred.
  cbn [aspect_ratio spec_geo]. unfold SpecGeometry.aspect_ratio.
  cbn [fbox b2 b3]. rewrite !sdiv_fin by lra.
  cbn [arctan ssub sopp sadd smul]. eexists. split; [reflexivity|].
  apply Rmult_le_pos.
  - apply Rle_0_sqr.
  - pose proof PI_RGT_0 as Hpi. left. apply Rmult_lt_0_compat; [lra|].
    apply Rinv_0_lt_compat. now apply Rmult_lt_0_compat.
Qed.

End ScenarioLosses.

(** ** Further properties of the batch reducer *)

Section BatchFacts.

Variables Out Tgt : Type.
Variable loss_func : Out -> Tgt -> result scalar.

Lemma mean_one (l : scalar) : mean [l] = l.
Proof.
  unfold mean, ssum. cbn [fold_right length INR].
  destruct l as [x| | |]; cbn [sadd sdiv];
    rewrite ?(ScalarFacts.Rsign_pos 1) by lra; try reflexivity.
  f_equal. field.
Qed.

(** The value of a sample whose loss returns. *)
Definition sample_value (ot : Out * Tgt) : scalar :=
  match loss_func (fst ot) (snd ot) with
  | Ok l => l
  | Raise _ => NaN
  end.

Lemma batch_losses_values (outputs : list Out) (targets : list Tgt) :
  length outputs = length targets ->
  (forall o t, In (o, t) (combine outputs targets) ->
               exists l, loss_func o t = Ok l) ->
  batch_losses loss_func outputs targets
    = Ok (map sample_value (combine outputs targets)).
Proof.
  intros H Hok. apply batch_losses_ok; [exact H|].
  clear H. induction (combine outputs targets) as [|[o t] pairs IH];
    cbn [map]; constructor.
  - destruct (Hok o t (or_introl eq_refl)) as [l Hl].
    unfold sample_value. cbn [fst snd]. now rewrite Hl.
  - apply IH. intros o' t' Hin. apply Hok. now right.
Qed.

(** An empty batch is an error: with no target sample the list of
    per-sample losses is empty and [torch.stack] raises, whatever the
    outputs are. *)
Lemma batch_mean_empty_batch (outputs : list Out) :
  batch_mean loss_func outputs [] = Raise RuntimeError.
Proof. destruct outputs; reflexivity. Qed.

(** X2: the loop runs over the samples of the targets; when the outputs
    hold fewer samples and the losses of the common samples return, indexing
    the outputs raises [IndexError]. *)
Theorem batch_mean_short_outputs (outputs : list Out) (targets : list Tgt) :
  (length outputs < length targets)%nat ->
  (forall o t, In (o, t) (combine outputs targets) ->
               exists l, loss_func o t = Ok l) ->
  batch_mean loss_func outputs targets = Raise IndexError.
Proof.
  intros Hlt Hok. unfold batch_mean.
  assert (E : batch_losses loss_func outputs targets = Raise IndexError).
  { revert targets Hlt Hok.
    induction outputs as [|o outputs IH]; intros [|t targets] Hlt Hok;
      cbn [length] in Hlt; try lia; [reflexivity|].
    cbn [batch_losses].
    destruct (Hok o t (or_introl eq_refl)) as [l ->]. cbn [bind].
    rewrite IH; [reflexivity | lia |].
    intros o' t' Hin. apply Hok. now right. }
  now rewrite E.
Qed.

(** X3: samples of the outputs beyond the number of target samples are
    never looked at. *)
Theorem batch_mean_ignores_extra_outputs
  (outputs extra : list Out) (targets : list Tgt) :
  length outputs = length targets ->
  batch_mean loss_func (outputs ++ extra) targets
    = batch_mean loss_func outputs targets.
Proof.
  intros H. unfold batch_mean. f_equal.
  revert targets H.
  induction outputs as [|o outputs IH]; intros [|t targets] H;
    cbn [length] in H; try discriminate.
  - destruct extra; reflexivity.
  - cbn [app batch_losses]. injection H as H. now rewrite (IH targets H).
Qed.

(** X4: over a batch of one sample [batch_mean] returns exactly what the
    loss returns on that sample, be it a number, an infinity, [NaN] or an
    exception. *)
Theorem batch_mean_single_sample (o : Out) (t : Tgt) :
  batch_mean loss_func [o] [t] = loss_func o t.
Proof.
  unfold batch_mean. cbn [batch_losses].
  destruct (loss_func o t) as [l|e]; cbn [bind stack]; [|reflexivity].
  now rewrite mean_one.
Qed.

(** X5: the samples are evaluated in order and the first exception ends
    the loop: when the losses of the first samples return and the next one
    raises, [batch_mean] raises that exception. *)
Theorem batch_mean_first_exception
  (outputs1 outputs2 : list Out) (targets1 targets2 : list Tgt)
  (o : Out) (t : Tgt) (e : exn) :
  length outputs1 = length targets1 ->
  (forall o' t', In (o', t') (combine outputs1 targets1) ->
                 exists l, loss_func o' t' = Ok l) ->
  loss_func o t = Raise e ->
  batch_mean loss_func (outputs1 ++ o :: outputs2) (targets1 ++ t :: targets2)
    = Raise e.
Proof.
  intros H Hok He. unfold batch_mean.
  assert (E : batch_losses loss_func (outputs1 ++ o :: outputs2)
                (targets1 ++ t :: targets2) = Raise e).
  { revert targets1 H Hok.
    induction outputs1 as [|o1 outputs1 IH]; intros [|t1 targets1] H Hok;
      cbn [length] in H; try discriminate.
    - cbn [app batch_losses]. now rewrite He.
    - cbn [app batch_losses]. injection H as H.
      destruct (Hok o1 t1 (or_introl eq_refl)) as [l ->]. cbn [bind].
      rewrite (IH targets1 H); [reflexivity|].
      intros o' t' Hin. apply Hok. now right. }
  now rewrite E.
Qed.

(** X6: the samples are independent: when every per-sample loss returns,
    reordering the batch (outputs and targets alike) does not change the
    batch mean. *)
Theorem batch_mean_permutation_invariant
  (outputs outputs' : list Out) (targets targets' : list Tgt) :
  length outputs = length targets ->
  length outputs' = length targets' ->
  Permutation (combine outputs targets) (combine outputs' targets') ->
  (forall o t, In (o, t) (combine outputs targets) ->
               exists l, loss_func o t = Ok l) ->
  batch_mean loss_func outputs' targets' = batch_mean loss_func outputs targets.
Proof.
  intros H H' P Hok. unfold batch_mean.
  rewrite (batch_losses_values outputs targets H Hok).
  rewrite (batch_losses_values outputs' targets' H').
  - cbn [bind].
    pose proof (Permutation_map sample_value P) as Pm.
    destruct (map sample_value (combine outputs targets)) as [|l ls] eqn:E.
    + apply Permutation_nil in Pm. now rewrite Pm.
    + destruct (map sample_value (combine outputs' targets')) as [|l' ls'] eqn:E'.
      * apply Permutation_sym, Permutation_nil in Pm. discriminate.
      * cbn [stack bind]. f_equal. symmetry.
        now apply ScalarFacts.mean_perm.
  - intros o t Hin. apply Hok.
    eapply Permutation_in; [apply Permutation_sym; exact P | exact Hin].
Qed.

(** X7: one sample whose loss is [NaN] makes the batch mean [NaN]. *)
Theorem batch_mean_nan_sample (outputs : list Out) (targets : list Tgt)
  (o : Out) (t : Tgt) :
  length outputs = length targets ->
  (forall o' t', In (o', t') (combine outputs targets) ->
                 exists l, loss_func o' t' = Ok l) ->
  In (o, t) (combine outputs targets) ->
  loss_func o t = Ok NaN ->
  batch_mean loss_func outputs targets = Ok NaN.
Proof.
  intros H Hok Hin Hnan. unfold batch_mean.
  rewrite (batch_losses_values outputs targets H Hok). cbn [bind].
  assert (N : In NaN (map sample_value (combine outputs targets))).
  { apply in_map_iff. exists (o, t). split; [|exact Hin].
    unfold sample_value. cbn [fst snd]. now rewrite Hnan. }
  destruct (map sample_value (combine outputs targets)) as [|l ls] eqn:E;
    [destruct N|].
  cbn [stack bind]. now rewrite (ScalarFacts.mean_NaN _ N).
Qed.

End BatchFacts.

Lemma iou_loss_returns (geo : Geometry) (output target : list box)
  (ignore_zero : bool) :
  length output = length target ->
  exists l, iou_loss geo output target ignore_zero = Ok l.
Proof. intros H. eexists. now apply iou_loss_terms. Qed.

Lemma batch_mean_short_outputs_witness :
  batch_mean (fun o t => iou_loss spec_geo o t true)
    [[scenario_pred]] [[scenario_target]; [scenario_target]]
  = Raise IndexError.
Proof.
  apply (batch_mean_short_outputs _ _ (fun o t => iou_loss spec_geo o t true)
           [[scenario_pred]] [[scenario_target]; [scenario_target]]).
  - simpl. lia.
  - intros o t [E | []]. injection E as <- <-.
    now apply iou_loss_returns.
Defined.

Lemma batch_mean_ignores_extra_outputs_witness :
  batch_mean (fun o t => iou_loss spec_geo o t true)
    ([[scenario_pred]] ++ [[scenario_pred]; []]) [[scenario_target]]
  = batch_mean (fun o t => iou_loss spec_geo o t true)
      [[scenario_pred]] [[scenario_target]].
Proof.
  apply (batch_mean_ignores_extra_outputs _ _
           (fun o t => iou_loss spec_geo o t true)
           [[scenario_pred]] [[scenario_pred]; []] [[scenario_target]]).
  reflexivity.
Defined.

Lemma batch_mean_first_exception_witness :
  batch_mean (fun o t => iou_loss spec_geo o t true)
    ([[scenario_pred]] ++ [scenario_pred] :: [[scenario_pred]])
    ([[scenario_target]] ++ [scenario_target; scenario_target]
       :: [[scenario_target]])
  = Raise IndexError.
Proof.
  apply (batch_mean_first_exception _ _ (fun o t => iou_loss spec_geo o t true)
           [[scenario_pred]] [[scenario_pred]]
           [[scenario_target]] [[scenario_target]]
           [scenario_pred] [scenario_target; scenario_target] IndexError).
  - reflexivity.
  - intros o t [E | []]. injection E as <- <-.
    now apply iou_loss_returns.
  - reflexivity.
Defined.

Lemma batch_mean_permutation_invariant_witness :
  batch_mean (fun o t => iou_loss spec_geo o t true)
    [[scenario_target]; [scenario_pred]] [[scenario_pred]; [scenario_target]]
  = batch_mean (fun o t => iou_loss spec_geo o t true)
      [[scenario_pred]; [scenario_target]] [[scenario_target]; [scenario_pred]].
Proof.
  apply (batch_mean_permutation_invariant _ _
           (fun o t => iou_loss spec_geo o t true)
           [[scenario_pred]; [scenario_target]]
           [[scenario_target]; [scenario_pred]]
           [[scenario_target]; [scenario_pred]]
           [[scenario_pred]; [scenario_target]]).
  - reflexivity.
  - reflexivity.
  - apply perm_swap.
  - intros o t [E | [E | []]]; injection E as <- <-;
      now apply iou_loss_returns.
Defined.

Lemma batch_mean_nan_sample_witness :
  batch_mean (fun o t => iou_loss spec_geo o t true)
    [[scenario_pred]; [scenario_pred]] [[scenario_target]; [zero_box]]
  = Ok NaN.
Proof.
  apply (batch_mean_nan_sample _ _ (fun o t => iou_loss spec_geo o t true)
           [[scenario_pred]; [scenario_pred]] [[scenario_target]; [zero_box]]
           [scenario_pred] [zero_box]).
  - reflexivity.
  - intros o t [E | [E | []]]; injection E as <- <-;
      now apply iou_loss_returns.
  - right. now left.
  - rewrite iou_loss_terms by reflexivity.
    unfold kept. cbn [combine filter fst].
    rewrite Scenario.any_gt0_zero_box. cbn [terms map].
    now rewrite ScalarFacts.mean_nil.
Defined.

(** ** Further properties of the box losses *)

(** X1: on an empty batch [structure_loss] raises: the classification mean
    comes first and stacks an empty list of losses, whatever the other
    arguments are. *)
Theorem structure_loss_empty_batch (geo : Geometry)
  (Logits Labels Weight : Type)
  (cross_entropy :
     Logits -> Labels -> nat -> scalar -> option Weight -> result scalar)
  (cls_output : list Logits) (box_output box_target : list (list box))
  (ignore_zero : bool) (pad_idx : nat) (smoothing : scalar)
  (weight : option Weight) :
  structure_loss geo cross_entropy (cls_output, box_output)
    (@nil Labels, box_target) ignore_zero pad_idx smoothing weight
  = Raise RuntimeError.
Proof.
  unfold structure_loss.
  now rewrite (batch_mean_empty_batch _ _
                 (cls_loss cross_entropy pad_idx smoothing weight) cls_output).
Qed.

(** X8: when every target row has a coordinate greater than zero,
    [ignore_zero] makes no difference to any of the four losses. *)
Theorem ignore_zero_irrelevant_without_padding (geo : Geometry)
  (output target : list box) :
  length output = length target ->
  Forall (fun t => exists c, In c (coords t) /\ positive c) target ->
  map (fun L : loss_fn => L output target true) (losses geo)
    = map (fun L : loss_fn => L output target false) (losses geo).
Proof.
  intros H F.
  rewrite (losses_values geo _ _ true H), (losses_values geo _ _ false H).
  f_equal. rewrite kept_all; [reflexivity|].
  eapply Forall_impl; [|exact F]. intros t. apply any_gt0_positive.
Qed.

Lemma any_gt0_scenario_target : any_gt0 scenario_target = true.
Proof. unfold scenario_target. apply Scenario.any_gt0_fbox_w. lra. Qed.

Lemma scenario_target_positive :
  exists c, In c (coords scenario_target) /\ positive c.
Proof.
  apply any_gt0_positive. unfold scenario_target.
  apply Scenario.any_gt0_fbox_w. lra.
Qed.

Lemma ignore_zero_irrelevant_without_padding_witness :
  map (fun L : loss_fn => L [scenario_pred] [scenario_target] true)
      (losses spec_geo)
    = map (fun L : loss_fn => L [scenario_pred] [scenario_target] false)
        (losses spec_geo).
Proof.
  apply (ignore_zero_irrelevant_without_padding spec_geo
           [scenario_pred] [scenario_target]).
  - reflexivity.
  - constructor; [apply scenario_target_positive | constructor].
Defined.

(** X9: what the padding filter returns with [ignore_zero=True]: it
    returns only for sequences of equal length, the two filtered sequences
    have equal length again, no longer than the input, and every target row
    left has a coordinate greater than zero. *)
Theorem padding_filter_true_result (output target output' target' : list box) :
  padding_filter output target true = Ok (output', target') ->
  length output = length target
  /\ length output' = length target'
  /\ (length target' <= length target)%nat
  /\ Forall (fun t => exists c, In c (coords t) /\ positive c) target'.
Proof.
  intros E.
  assert (H : length output = length target).
  { unfold padding_filter, index_mask, keep_mask in E.
    rewrite length_map in E.
    destruct (Nat.eqb (length output) (length target)) eqn:L;
      [now apply Nat.eqb_eq in L | discriminate]. }
  rewrite (padding_filter_ok output target true H) in E.
  injection E as <- <-. unfold kept.
  split; [exact H|]. split; [now rewrite !length_map|]. split.
  - rewrite length_map.
    eapply Nat.le_trans; [apply filter_length_le|].
    rewrite length_combine. lia.
  - apply Forall_map. apply Forall_forall. intros tp Hin.
    apply filter_In in Hin. apply any_gt0_positive. tauto.
Qed.

Lemma padding_filter_true_result_witness :
  length [scenario_pred; scenario_pred] = length [scenario_target; zero_box]
  /\ length [scenario_pred] = length [scenario_target]
  /\ (length [scenario_target] <= length [scenario_target; zero_box])%nat
  /\ Forall (fun t => exists c, In c (coords t) /\ positive c)
       [scenario_target].
Proof.
  apply (padding_filter_true_result [scenario_pred; scenario_pred]
           [scenario_target; zero_box] [scenario_pred] [scenario_target]).
  rewrite padding_filter_ok by reflexivity.
  unfold kept. cbn [combine filter fst].
  rewrite any_gt0_scenario_target, Scenario.any_gt0_zero_box. reflexivity.
Defined.

Section MeanOrder.

Local Open Scope R_scope.

Lemma ssum_bounds (a b : R) (l : list scalar) :
  Forall (fun s => exists r, s = Fin r /\ a <= r <= b) l ->
  exists tot, ssum l = Fin tot
            /\ INR (length l) * a <= tot <= INR (length l) * b.
Proof.
  induction 1 as [|s l [r [-> Hr]] F [tot [Htot Hb]]].
  - exists 0. split; [reflexivity|]. simpl. lra.
  - exists (r + tot). split.
    + change (ssum (Fin r :: l)) with (sadd (Fin r) (ssum l)).
      now rewrite Htot.
    + change (length (Fin r :: l)) with (S (length l)).
      rewrite S_INR. lra.
Qed.

Lemma mean_bounds (a b : R) (l : list scalar) :
  l <> [] ->
  Forall (fun s => exists r, s = Fin r /\ a <= r <= b) l ->
  exists m, mean l = Fin m /\ a <= m <= b.
Proof.
  intros Hne F. destruct (ssum_bounds a b l F) as [tot [Htot [Hlo Hhi]]].
  assert (Hn : 0 < INR (length l)).
  { apply lt_0_INR. destruct l; [contradiction | simpl; lia]. }
  unfold mean. rewrite Htot, ScalarFacts.sdiv_fin by lra.
  eexists. split; [reflexivity|].
  set (n := INR (length l)) in *.
  assert (Hi : 0 < / n) by now apply Rinv_0_lt_compat.
  assert (Hni : n * / n = 1) by (apply Rinv_r; lra).
  assert (H1 : 0 <= (tot - n * a) * / n) by (apply Rmult_le_pos; lra).
  assert (H2 : 0 <= (n * b - tot) * / n) by (apply Rmult_le_pos; lra).
  replace ((tot - n * a) * / n) with (tot / n - a * (n * / n)) in H1
    by (unfold Rdiv; ring).
  replace ((n * b - tot) * / n) with (b * (n * / n) - tot / n) in H2
    by (unfold Rdiv; ring).
  rewrite Hni in H1, H2. lra.
Qed.

Lemma ssum_le (l l' : list scalar) :
  Forall2 sle l l' ->
  exists tot tot', ssum l = Fin tot /\ ssum l' = Fin tot' /\ tot <= tot'.
Proof.
  induction 1 as [|s s' l l' [x [y [-> [-> Hxy]]]] F [tot [tot' [Htot [Htot' Hle]]]]].
  - exists 0, 0. split; [|split]; [reflexivity | reflexivity | lra].
  - exists (x + tot), (y + tot'). split; [|split].
    + change (ssum (Fin x :: l)) with (sadd (Fin x) (ssum l)).
      now rewrite Htot.
    + change (ssum (Fin y :: l')) with (sadd (Fin y) (ssum l')).
      now rewrite Htot'.
    + lra.
Qed.

Lemma mean_le (l l' : list scalar) :
  l <> [] -> Forall2 sle l l' -> sle (mean l) (mean l').
Proof.
  intros Hne F. destruct (ssum_le l l' F) as [tot [tot' [Htot [Htot' Hle]]]].
  assert (Hn : 0 < INR (length l)).
  { apply lt_0_INR. destruct l; [contradiction | simpl; lia]. }
  unfold mean. rewrite <- (Forall2_length F), Htot, Htot'.
  rewrite !ScalarFacts.sdiv_fin by lra.
  do 2 eexists. repeat split.
  unfold Rdiv. apply Rmult_le_compat_r; [|exact Hle].
  left. now apply Rinv_0_lt_compat.
Qed.

Lemma aspect_value_nonneg (geo : Geometry) (t p : box) (v : R) :
  aspect_value geo t p = Fin v -> 0 <= v.
Proof.
  unfold aspect_value, four_over_pi2, pow2.
  destruct (ssub (arctan (aspect_ratio geo t)) (arctan (aspect_ratio geo p)))
    as [x| | |]; cbn [smul].
  - intros E. injection E as <-.
    apply Rmult_le_pos; [apply Rle_0_sqr|].
    pose proof PI_RGT_0 as Hpi. left. apply Rmult_lt_0_compat; [lra|].
    apply Rinv_0_lt_compat. now apply Rmult_lt_0_compat.
  - destruct (Rsign (4 / (PI * PI))); discriminate.
  - destruct (Rsign (4 / (PI * PI))); discriminate.
  - discriminate.
Qed.

End MeanOrder.

(** X11: when the overlap ratio of every kept pair is a number of [[0, 1]]
    and at least one pair is kept, [iou_loss] is a number of [[0, 1]]. *)
Theorem iou_loss_in_unit_interval (geo : Geometry)
  (output target : list box) (ignore_zero : bool) :
  length output = length target ->
  kept output target ignore_zero <> [] ->
  (forall t p, In (t, p) (kept output target ignore_zero) ->
               exists r, iou geo t p = Fin r /\ (0 <= r <= 1)%R) ->
  exists x, iou_loss geo output target ignore_zero = Ok (Fin x)
            /\ (0 <= x <= 1)%R.
Proof.
  intros H Hne Hiou. rewrite (iou_loss_terms geo _ _ ignore_zero H).
  destruct (mean_bounds 0 1 (terms (iou_term geo)
                               (kept output target ignore_zero)))
    as [m [Hm Hb]].
  - unfold terms. destruct (kept output target ignore_zero);
      [contradiction | discriminate].
  - unfold terms. apply Forall_map, Forall_forall. intros [t p] Hin.
    destruct (Hiou t p Hin) as [r [Hr Hb]]. cbn [fst snd].
    unfold iou_term. rewrite Hr. cbn [ssub sopp sadd].
    eexists. split; [reflexivity | lra].
  - exists m. now rewrite Hm.
Qed.

Lemma iou_loss_in_unit_interval_witness :
  exists x, iou_loss spec_geo [scenario_pred] [scenario_target] true
            = Ok (Fin x) /\ (0 <= x <= 1)%R.
Proof.
  assert (K : kept [scenario_pred] [scenario_target] true
              = [(scenario_target, scenario_pred)]).
  { unfold kept. cbn [combine filter fst].
    now rewrite any_gt0_scenario_target. }
  apply (iou_loss_in_unit_interval spec_geo
           [scenario_pred] [scenario_target] true).
  - reflexivity.
  - rewrite K. discriminate.
  - rewrite K. intros t p [E | []]. injection E as <- <-.
    exists (2 / 5)%R. split; [apply Scenario.iou_target_pred | lra].
Defined.

(** X12: the three pairwise losses are ordered.  When at least one pair is
    kept and, for every kept pair, the overlap ratio is a number below 1,
    the normalised center distance is a non-negative number and the
    aspect-ratio penalty is a number, then
    [0 < iou_loss <= distance_iou_loss <= complete_iou_loss]. *)
Theorem pairwise_losses_ordered (geo : Geometry)
  (output target : list box) (ignore_zero : bool) :
  length output = length target ->
  kept output target ignore_zero <> [] ->
  (forall t p, In (t, p) (kept output target ignore_zero) ->
     exists r d v,
       iou geo t p = Fin r /\ (r < 1)%R
       /\ dist_term geo t p = Fin d /\ (0 <= d)%R
       /\ aspect_value geo t p = Fin v) ->
  exists a b c,
    iou_loss geo output target ignore_zero = Ok (Fin a)
    /\ distance_iou_loss geo output target ignore_zero = Ok (Fin b)
    /\ complete_iou_loss geo output target ignore_zero = Ok (Fin c)
    /\ (0 < a <= b)%R /\ (b <= c)%R.
Proof.
  intros H Hne Hk.
  rewrite (iou_loss_terms geo _ _ ignore_zero H).
  rewrite (distance_iou_loss_terms geo _ _ ignore_zero H).
  rewrite (complete_iou_loss_terms geo _ _ ignore_zero H).
  set (k := kept output target ignore_zero) in *.
  assert (Hne' : forall f, terms f k <> []).
  { intros f. unfold terms. destruct k; [contradiction | discriminate]. }
  assert (Hpt : forall t p, In (t, p) k ->
            exists r d c, iou_term geo t p = Fin (1 - r) /\ (r < 1)%R
              /\ diou_term geo t p = Fin (1 - r + d) /\ (0 <= d)%R
              /\ ciou_term geo t p = Fin (1 - r + d + c) /\ (0 <= c)%R).
  { intros t p Hin. destruct (Hk t p Hin) as [r [d [v [Hr [Hr1 [Hd [Hd0 Hv]]]]]]].
    pose proof (aspect_value_nonneg geo t p v Hv) as Hv0.
    exists r, d, (v / (1 - r + v) * v)%R.
    unfold ciou_term, alpha, diou_term, iou_term. rewrite Hr, Hd, Hv.
    cbn [ssub sopp sadd]. rewrite ScalarFacts.sdiv_fin by lra.
    cbn [smul sadd]. repeat split; try assumption.
    apply Rmult_le_pos; [|exact Hv0].
    apply Rmult_le_pos; [exact Hv0|]. left. apply Rinv_0_lt_compat. lra. }
  assert (F1 : Forall2 sle (terms (iou_term geo) k) (terms (diou_term geo) k)).
  { unfold terms. clear Hne Hne' Hk. induction k as [|[t p] k IH];
      cbn [map]; constructor.
    - destruct (Hpt t p (or_introl eq_refl))
        as [r [d [c [Hi [_ [Hd [Hd0 _]]]]]]].
      cbn [fst snd]. rewrite Hi, Hd. do 2 eexists. repeat split. lra.
    - apply IH. intros t' p' Hin. apply Hpt. now right. }
  assert (F2 : Forall2 sle (terms (diou_term geo) k) (terms (ciou_term geo) k)).
  { unfold terms. clear Hne Hne' Hk F1. induction k as [|[t p] k IH];
      cbn [map]; constructor.
    - destruct (Hpt t p (or_introl eq_refl))
        as [r [d [c [_ [_ [Hd [_ [Hc Hc0]]]]]]]].
      cbn [fst snd]. rewrite Hd, Hc. do 2 eexists. repeat split. lra.
    - apply IH. intros t' p' Hin. apply Hpt. now right. }
  destruct (mean_le _ _ (Hne' _) F1) as [a [b [Ha [Hb Hab]]]].
  destruct (mean_le _ _ (Hne' _) F2) as [b' [c [Hb' [Hc Hbc]]]].
  rewrite Hb in Hb'. injection Hb' as <-.
  exists a, b, c. rewrite Ha, Hb, Hc. repeat split; try assumption.
  (* the mean of positive terms is positive *)
  assert (Fp : Forall (fun s => exists r, s = Fin r /\ (0 < r)%R)
                 (terms (iou_term geo) k)).
  { unfold terms. apply Forall_map, Forall_forall. intros [t p] Hin.
    destruct (Hpt t p Hin) as [r [_ [_ [Hi [Hr1 _]]]]].
    cbn [fst snd]. rewrite Hi. eexists. split; [reflexivity | lra]. }
  clear - Fp Ha Hne'. specialize (Hne' (iou_term geo)).
  unfold mean in Ha. revert Ha.
  set (l := terms (iou_term geo) k) in *.
  assert (Hs : exists tot, ssum l = Fin tot /\ (0 < tot)%R).
  { destruct l as [|s l]; [contradiction|].
    clear Hne'. revert s Fp. induction l as [|s' l IH]; intros s Fp.
    - inversion Fp as [|? ? [r [-> Hr]] _]; subst.
      exists (r + 0)%R. split; [reflexivity | lra].
    - inversion Fp as [|? ? [r [-> Hr]] Fp']; subst.
      destruct (IH s' Fp') as [tot [Htot Htot0]].
      exists (r + tot)%R. split; [|lra].
      change (ssum (Fin r :: s' :: l)) with (sadd (Fin r) (ssum (s' :: l))).
      now rewrite Htot. }
  destruct Hs as [tot [-> Htot]].
  assert (Hn : (0 < INR (length l))%R).
  { apply lt_0_INR. destruct l; [contradiction | simpl; lia]. }
  rewrite ScalarFacts.sdiv_fin by lra. intros E. injection E as <-.
  apply Rmult_lt_0_compat; [exact Htot | now apply Rinv_0_lt_compat].
Qed.

Lemma pairwise_losses_ordered_witness :
  exists a b c,
    iou_loss spec_geo [scenario_pred] [scenario_target] true = Ok (Fin a)
    /\ distance_iou_loss spec_geo [scenario_pred] [scenario_target] true
       = Ok (Fin b)
    /\ complete_iou_loss spec_geo [scenario_pred] [scenario_target] true
       = Ok (Fin c)
    /\ (0 < a <= b)%R /\ (b <= c)%R.
Proof.
  assert (K : kept [scenario_pred] [scenario_target] true
              = [(scenario_target, scenario_pred)]).
  { unfold kept. cbn [combine filter fst].
    now rewrite any_gt0_scenario_target. }
  apply (pairwise_losses_ordered spec_geo
           [scenario_pred] [scenario_target] true).
  - reflexivity.
  - rewrite K. discriminate.
  - rewrite K. intros t p [E | []]. injection E as <- <-.
    destruct ScenarioLosses.dist_term_scenario as [d [Hd Hd0]].
    destruct ScenarioLosses.aspect_value_scenario as [v [Hv _]].
    exists (2 / 5)%R, d, v.
    repeat split; try assumption; try lra.
    apply Scenario.iou_target_pred.
Defined.

(** X13: an overlap ratio that is [NaN] at one kept position makes each of
    the four losses [NaN]. *)
Theorem nan_overlap_poisons_losses (geo : Geometry)
  (output target : list box) (ignore_zero : bool) (t p : box) :
  length output = length target ->
  In (t, p) (kept output target ignore_zero) ->
  iou geo t p = NaN ->
  map (fun L : loss_fn => L output target ignore_zero) (losses geo)
    = [Ok NaN; Ok NaN; Ok NaN; Ok NaN].
Proof.
  intros H Hin Hnan. rewrite (losses_values geo _ _ ignore_zero H).
  assert (Hi : iou_term geo t p = NaN)
    by (unfold iou_term; now rewrite Hnan).
  assert (Hd : diou_term geo t p = NaN)
    by (unfold diou_term; now rewrite Hi).
  assert (Hc : ciou_term geo t p = NaN)
    by (unfold ciou_term; now rewrite Hd).
  assert (N : forall f : box -> box -> scalar, f t p = NaN ->
                mean (terms f (kept output target ignore_zero)) = NaN).
  { intros f Hf. apply ScalarFacts.mean_NaN. unfold terms.
    apply in_map_iff. exists (t, p). split; [exact Hf | exact Hin]. }
  unfold loss_values. now rewrite (N _ Hi), (N _ Hd), (N _ Hc).
Qed.

(** A target row with an undefined first coordinate. *)
Definition nan_row : box := Box NaN (Fin (1 / 10)) (Fin (1 / 8)) (Fin (1 / 5)).

Lemma iou_nan_row : iou spec_geo nan_row scenario_pred = NaN.
Proof.
  cbn [iou spec_geo]. unfold SpecGeometry.iou.
  assert (D : SpecGeometry.degenerate nan_row = false).
  { unfold SpecGeometry.degenerate, nan_row. cbn [b2 b3].
    rewrite !SpecGeometryFacts.is_zero_fin by lra. reflexivity. }
  assert (D' : SpecGeometry.degenerate scenario_pred = false)
    by (apply SpecGeometryFacts.degenerate_fbox; lra).
  rewrite D, D'. reflexivity.
Qed.

Lemma nan_overlap_poisons_losses_witness :
  map (fun L : loss_fn => L [scenario_pred] [nan_row] false)
      (losses spec_geo)
    = [Ok NaN; Ok NaN; Ok NaN; Ok NaN].
Proof.
  apply (nan_overlap_poisons_losses spec_geo [scenario_pred] [nan_row]
           false nan_row scenario_pred).
  - reflexivity.
  - now left.
  - apply iou_nan_row.
Defined.

(** * The encoder blocks of [tex/models/structure/encoder/blocks.py]

    The blocks are built from torch layers.  What the file itself decides is
    which layers a block is made of and how their channel counts, kernels,
    strides and paddings are chosen.  The layers are modelled as data, the
    constructors as functions that build this data or raise as the Python
    constructors do, and [forward] at the level of tensor shapes: a tensor
    is its shape [(N, C, H, W)], a layer maps a shape to a shape or raises as
    torch does when the shape does not fit. *)

Module Blocks.

Inductive block_exn : Type :=
| AssertionError   (* a failed [assert] of a constructor *)
| ValueError       (* a rejected layer argument, a batch norm on one value *)
| ShapeError.      (* torch's [RuntimeError] on shapes that do not fit *)

Inductive outcome (A : Type) : Type :=
| Done (a : A)
| Fails (e : block_exn).

Arguments Done {A} a.
Arguments Fails {A} e.

Definition obind {A B : Type} (m : outcome A) (k : A -> outcome B)
  : outcome B :=
  match m with
  | Done a => k a
  | Fails e => Fails e
  end.

Declare Scope outcome_scope.
Delimit Scope outcome_scope with outcome.
Notation "x <- m ;; k" := (obind m (fun x => k))
  (at level 61, m at next level, right associativity) : outcome_scope.
Local Open Scope outcome_scope.
Local Open Scope nat_scope.

(** [def call(func, value): return func(value) if callable(func) else value] *)
Definition call {A : Type} (func : option (A -> outcome A)) (value : A)
  : outcome A :=
  match func with
  | Some f => f value
  | None => Done value
  end.

(** The torch layers the file uses, with the arguments it passes. *)
Inductive layer : Type :=
| BatchNorm2d (num_features : nat)
| ReLU
| Conv2d (in_channels out_channels : nat) (kernel_size stride padding : nat * nat)
         (groups : nat) (bias : bool)
| AvgPool2d (kernel_size stride padding : nat * nat).

(** [nn.Conv2d(...)]: the constructor rejects a group count that is not
    positive or does not divide both channel counts. *)
Definition new_Conv2d (in_channels out_channels : nat)
  (kernel_size stride padding : nat * nat) (groups : nat) (bias : bool)
  : outcome layer :=
  if (groups =? 0) then Fails ValueError
  else if negb (in_channels mod groups =? 0) then Fails ValueError
  else if negb (out_channels mod groups =? 0) then Fails ValueError
  else Done (Conv2d in_channels out_channels kernel_size stride padding
               groups bias).

(** The shape [(N, C, H, W)] of a tensor. *)
Record shape : Type :=
  Shape { batch : nat; channels : nat; height : nat; width : nat }.

Definition numel (x : shape) : nat :=
  batch x * channels x * height x * width x.

Definition shape_eqb (x y : shape) : bool :=
  (batch x =? batch y) && (channels x =? channels y)
  && (height x =? height y) && (width x =? width y).

(** Size of one spatial dimension after a convolution or a pooling with
    kernel [k], stride [s] and padding [p]. *)
Definition out_size (h k s p : nat) : outcome nat :=
  if s =? 0 then Fails ShapeError
  else if h + 2 * p <? k then Fails ShapeError
  else Done ((h + 2 * p - k) / s + 1).

Section Forward.

(** [nn.Module.training]: a batch norm in training mode refuses an input
    with a single value per channel. *)
Variable training : bool.

Definition layer_forward (l : layer) (x : shape) : outcome shape :=
  match l with
  | BatchNorm2d num_features =>
      if training && (batch x * height x * width x =? 1)
      then Fails ValueError
      else if channels x =? num_features then Done x
      else Fails ShapeError
  | ReLU => Done x
  | Conv2d cin cout k s p _ _ =>
      if channels x =? cin then
        h <- out_size (height x) (fst k) (fst s) (fst p) ;;
        w <- out_size (width x) (snd k) (snd s) (snd p) ;;
        Done (Shape (batch x) cout h w)
      else Fails ShapeError
  | AvgPool2d k s p =>
      if (fst k <? 2 * fst p) || (snd k <? 2 * snd p) then Fails ShapeError
      else
        h <- out_size (height x) (fst k) (fst s) (fst p) ;;
        w <- out_size (width x) (snd k) (snd s) (snd p) ;;
        Done (Shape (batch x) (channels x) h w)
  end.

(** [nn.Sequential] of layers. *)
Fixpoint layers_forward (ls : list layer) (x : shape) : outcome shape :=
  match ls with
  | [] => Done x
  | l :: ls' => y <- layer_forward l x ;; layers_forward ls' y
  end.

(** Broadcast of one dimension of two tensors that are added or
    multiplied. *)
Definition broadcast_dim (a b : nat) : outcome nat :=
  if a =? b then Done a
  else if a =? 1 then Done b
  else if b =? 1 then Done a
  else Fails ShapeError.

(** Shape of [a + b]. *)
Definition add_shapes (a b : shape) : outcome shape :=
  n <- broadcast_dim (batch a) (batch b) ;;
  c <- broadcast_dim (channels a) (channels b) ;;
  h <- broadcast_dim (height a) (height b) ;;
  w <- broadcast_dim (width a) (width b) ;;
  Done (Shape n c h w).

(** [CotAttention]: what [__init__] stores. *)
Record CotAttention : Type := {
  cot_alpha : nat;
  key_mapping : list layer;
  val_mapping : list layer;
  atn_mapping : list layer;
  cot_downsample : option layer
}.

Definition new_CotAttention (d_model d_hidden : nat)
  (kernel_size stride padding : nat * nat) : outcome CotAttention :=
  if negb (negb (fst kernel_size mod 2 =? 0)
           && ((fst kernel_size - 1) / 2 =? fst padding))
  then Fails AssertionError
  else if negb (negb (snd kernel_size mod 2 =? 0)
                && ((snd kernel_size - 1) / 2 =? snd padding))
  then Fails AssertionError
  else
    let alpha := fst kernel_size * snd kernel_size in
    k <- new_Conv2d d_model d_model kernel_size (1, 1) padding 1 false ;;
    v <- new_Conv2d d_model d_model (1, 1) (1, 1) (0, 0) 1 false ;;
    a1 <- new_Conv2d (2 * d_model) d_hidden (1, 1) (1, 1) (0, 0) 1 false ;;
    a2 <- new_Conv2d d_hidden (d_model * alpha) (1, 1) (1, 1) (0, 0) 1 true ;;
    Done {| cot_alpha := alpha;
            key_mapping := [k; BatchNorm2d d_model; ReLU];
            val_mapping := [v; BatchNorm2d d_model];
            atn_mapping := [a1; BatchNorm2d d_hidden; ReLU; a2];
            cot_downsample :=
              if (1 <? fst stride) || (1 <? snd stride)
              then Some (AvgPool2d kernel_size stride padding)
              else None |}.

(** [CotAttention.forward], on shapes.  The tensors [val], [atn] and [k_2]
    have shape [(bs, c, h*w)]; a [view] raises unless the number of elements
    is kept. *)
Definition cot_forward (m : CotAttention) (x : shape) : outcome shape :=
  x <- call (option_map layer_forward (cot_downsample m)) x ;;
  k_1 <- layers_forward (key_mapping m) x ;;
  v <- layers_forward (val_mapping m) x ;;
  (* .view(x.size(0), x.size(1), -1) *)
  val_len <-
    (if (batch x * channels x =? 0) then Fails ShapeError
     else if negb (numel v mod (batch x * channels x) =? 0)
          then Fails ShapeError
          else Done (numel v / (batch x * channels x))) ;;
  (* torch.cat([k_1, x], dim=1) *)
  cat <-
    (if (batch k_1 =? batch x) && (height k_1 =? height x)
        && (width k_1 =? width x)
     then Done (Shape (batch x) (channels k_1 + channels x)
                  (height x) (width x))
     else Fails ShapeError) ;;
  atn <- layers_forward (atn_mapping m) cat ;;
  (* atn.view(x.size(0), x.size(1), self.alpha, x.size(2), x.size(3)),
     .mean(2), .view(x.size(0), x.size(1), -1) *)
  atn_len <-
    (if numel atn =? batch x * channels x * cot_alpha m * height x * width x
     then if batch x * channels x =? 0 then Fails ShapeError
          else Done (height x * width x)
     else Fails ShapeError) ;;
  (* torch.softmax(atn, dim=-1) * val *)
  k_2_len <- broadcast_dim atn_len val_len ;;
  (* k_2.view( *x.size()) *)
  k_2 <-
    (if batch x * channels x * k_2_len =? numel x then Done x
     else Fails ShapeError) ;;
  add_shapes k_1 k_2.

(** A member of the [nn.Sequential] of a block. *)
Inductive module : Type :=
| Layer (l : layer)
| Cot (m : CotAttention).

Definition module_forward (m : module) (x : shape) : outcome shape :=
  match m with
  | Layer l => layer_forward l x
  | Cot c => cot_forward c x
  end.

Fixpoint net_forward (ms : list module) (x : shape) : outcome shape :=
  match ms with
  | [] => Done x
  | m :: ms' => y <- module_forward m x ;; net_forward ms' y
  end.

(** A block: what [Block.__init__] and the constructor of the subclass
    store. *)
Record Block : Type := {
  sub_method : option (shape -> outcome shape);
  downsample : option (list layer);
  net : list module
}.

(** [Block.forward]:
    [call(self.sub_method, self.net(x)) + call(self.downsample, x)]. *)
Definition forward (b : Block) (x : shape) : outcome shape :=
  y <- net_forward (net b) x ;;
  y <- call (sub_method b) y ;;
  d <- call (option_map layers_forward (downsample b)) x ;;
  add_shapes y d.

End Forward.

(** [Block.__init__]: the assertion on the stride and the choice of the
    shortcut. *)
Definition Block_init (expansion in_planes planes : nat) (stride : nat * nat)
  : outcome (option (list layer)) :=
  if negb ((0 <? fst stride) && (0 <? snd stride)) then Fails AssertionError
  else if (1 <? fst stride) || (1 <? snd stride)
          || negb (in_planes =? planes * expansion)
  then
    c <- new_Conv2d in_planes (planes * expansion) (1, 1) stride (0, 0) 1
           false ;;
    Done (Some [c; BatchNorm2d (planes * expansion)])
  else Done None.

(** The block classes of the file and their [expansion]. *)
Inductive block_class : Type :=
| BasicBlock
| Bottleneck
| BottleneckX
| ContextualBlock.

Definition expansion (c : block_class) : nat :=
  match c with
  | BasicBlock => 1
  | Bottleneck => 4
  | BottleneckX => 2
  | ContextualBlock => 4
  end.

Definition new_BasicBlock (in_planes planes : nat) (stride : nat * nat)
  (sub : option (shape -> outcome shape)) : outcome Block :=
  ds <- Block_init (expansion BasicBlock) in_planes planes stride ;;
  c1 <- new_Conv2d in_planes planes (3, 3) stride (1, 1) 1 true ;;
  c2 <- new_Conv2d planes (planes * expansion BasicBlock) (3, 3) (1, 1) (1, 1)
          1 true ;;
  Done {| sub_method := sub; downsample := ds;
          net := [Layer (BatchNorm2d in_planes); Layer ReLU; Layer c1;
                  Layer (BatchNorm2d planes); Layer ReLU; Layer c2] |}.

Definition new_Bottleneck (in_planes planes : nat) (stride : nat * nat)
  (sub : option (shape -> outcome shape)) : outcome Block :=
  ds <- Block_init (expansion Bottleneck) in_planes planes stride ;;
  c1 <- new_Conv2d in_planes planes (1, 1) (1, 1) (0, 0) 1 true ;;
  c2 <- new_Conv2d planes planes (3, 3) stride (1, 1) 1 true ;;
  c3 <- new_Conv2d planes (planes * expansion Bottleneck) (1, 1) (1, 1) (0, 0)
          1 true ;;
  Done {| sub_method := sub; downsample := ds;
          net := [Layer (BatchNorm2d in_planes); Layer ReLU; Layer c1;
                  Layer (BatchNorm2d planes); Layer ReLU; Layer c2;
                  Layer (BatchNorm2d planes); Layer ReLU; Layer c3] |}.

Definition new_BottleneckX (in_planes planes : nat) (stride : nat * nat)
  (groups : nat) (sub : option (shape -> outcome shape)) : outcome Block :=
  ds <- Block_init (expansion BottleneckX) in_planes planes stride ;;
  c1 <- new_Conv2d in_planes planes (1, 1) (1, 1) (0, 0) 1 true ;;
  c2 <- new_Conv2d planes planes (3, 3) stride (1, 1) groups true ;;
  c3 <- new_Conv2d planes (planes * expansion BottleneckX) (1, 1) (1, 1) (0, 0)
          1 true ;;
  Done {| sub_method := sub; downsample := ds;
          net := [Layer (BatchNorm2d in_planes); Layer ReLU; Layer c1;
                  Layer (BatchNorm2d planes); Layer ReLU; Layer c2;
                  Layer (BatchNorm2d planes); Layer ReLU; Layer c3] |}.

Definition new_ContextualBlock (in_planes planes : nat) (stride : nat * nat)
  (sub : option (shape -> outcome shape)) : outcome Block :=
  ds <- Block_init (expansion ContextualBlock) in_planes planes stride ;;
  c1 <- new_Conv2d in_planes planes (1, 1) (1, 1) (0, 0) 1 true ;;
  cot <- new_CotAttention planes planes (3, 3) stride (1, 1) ;;
  c3 <- new_Conv2d planes (planes * expansion ContextualBlock) (1, 1) (1, 1)
          (0, 0) 1 true ;;
  Done {| sub_method := sub; downsample := ds;
          net := [Layer (BatchNorm2d in_planes); Layer ReLU; Layer c1;
                  Layer (BatchNorm2d planes); Layer ReLU; Cot cot;
                  Layer (BatchNorm2d planes); Layer ReLU; Layer c3] |}.

(** [block(in_planes, planes, stride=stride, sub=sub)] for a block class;
    [BottleneckX] takes its default [groups=32]. *)
Definition new_block (c : block_class) (in_planes planes : nat)
  (stride : nat * nat) (sub : option (shape -> outcome shape))
  : outcome Block :=
  match c with
  | BasicBlock => new_BasicBlock in_planes planes stride sub
  | Bottleneck => new_Bottleneck in_planes planes stride sub
  | BottleneckX => new_BottleneckX in_planes planes stride 32 sub
  | ContextualBlock => new_ContextualBlock in_planes planes stride sub
  end.

(** The list comprehension of [make_layer]: one block for each index of
    [range(1, layers)]. *)
Fixpoint more_blocks (n : nat) (c : block_class) (planes : nat)
  (sub : option (shape -> outcome shape)) : outcome (list Block) :=
  match n with
  | O => Done []
  | S n' =>
      b <- new_block c (planes * expansion c) planes (1, 1) sub ;;
      bs <- more_blocks n' c planes sub ;;
      Done (b :: bs)
  end.

(** [make_layer]: the [nn.Sequential] of the first block and of
    [layers - 1] further ones. *)
Definition make_layer (layers : nat) (c : block_class)
  (in_planes planes : nat) (stride : nat * nat)
  (sub : option (shape -> outcome shape)) : outcome (list Block) :=
  b <- new_block c in_planes planes stride sub ;;
  bs <- more_blocks (layers - 1) c planes sub ;;
  Done (b :: bs).

(** [nn.Sequential] of blocks. *)
Fixpoint blocks_forward (training : bool) (bs : list Block) (x : shape)
  : outcome shape :=
  match bs with
  | [] => Done x
  | b :: bs' => y <- forward training b x ;; blocks_forward training bs' y
  end.

End Blocks.

(** ** Shapes through the layers *)

Module BlocksFacts.

Import Blocks.
Local Open Scope outcome_scope.
Local Open Scope nat_scope.

(** Size of a spatial dimension [h] after a layer of stride [s] whose
    padding makes up for its kernel. *)
Definition reduced (h s : nat) : nat := (h - 1) / s + 1.

Lemma reduced_stride1 (h : nat) : 1 <= h -> reduced h 1 = h.
Proof. intros H. unfold reduced. rewrite Nat.div_1_r. lia. Qed.

Lemma reduced_pos (h s : nat) : 1 <= reduced h s.
Proof. unfold reduced. lia. Qed.

Lemma reduced_le (h s : nat) : 1 <= h -> reduced h s <= h.
Proof.
  intros H. unfold reduced.
  assert ((h - 1) / s <= h - 1); [|lia].
  destruct s as [|s]; [simpl; lia|].
  apply Nat.Div0.div_le_upper_bound. nia.
Qed.

Lemma reduced_one (s : nat) : reduced 1 s = 1.
Proof. unfold reduced. cbn [Nat.sub]. now rewrite Nat.Div0.div_0_l. Qed.

Lemma out_size_same (h k s p : nat) :
  1 <= h -> 1 <= s -> k = 2 * p + 1 ->
  out_size h k s p = Done (reduced h s).
Proof.
  intros Hh Hs ->. unfold out_size, reduced.
  destruct (Nat.eqb_spec s 0) as [E|_]; [lia|].
  destruct (Nat.ltb_spec (h + 2 * p) (2 * p + 1)) as [E|_]; [lia|].
  do 3 f_equal. lia.
Qed.

Section Layers.

Variable training : bool.

Lemma new_Conv2d_ungrouped (cin cout : nat) (k s p : nat * nat) (b : bool) :
  new_Conv2d cin cout k s p 1 b = Done (Conv2d cin cout k s p 1 b).
Proof. unfold new_Conv2d. now rewrite !Nat.mod_1_r. Qed.

Lemma bn_forward (n : nat) (x : shape) :
  channels x = n ->
  (training = true -> batch x * height x * width x <> 1) ->
  layer_forward training (BatchNorm2d n) x = Done x.
Proof.
  intros Hc Ht. cbn [layer_forward].
  rewrite Hc, Nat.eqb_refl.
  destruct training; [|reflexivity].
  destruct (Nat.eqb_spec (batch x * height x * width x) 1) as [E|_];
    [now destruct (Ht eq_refl) | reflexivity].
Qed.

Lemma conv_forward (cin cout k0 k1 s0 s1 p0 p1 g : nat) (b : bool)
  (x : shape) :
  channels x = cin ->
  1 <= height x -> 1 <= width x -> 1 <= s0 -> 1 <= s1 ->
  k0 = 2 * p0 + 1 -> k1 = 2 * p1 + 1 ->
  layer_forward training (Conv2d cin cout (k0, k1) (s0, s1) (p0, p1) g b) x
    = Done (Shape (batch x) cout (reduced (height x) s0)
              (reduced (width x) s1)).
Proof.
  intros Hc Hh Hw Hs0 Hs1 Hk0 Hk1. cbn [layer_forward fst snd].
  rewrite Hc, Nat.eqb_refl.
  rewrite (out_size_same (height x) k0 s0 p0 Hh Hs0 Hk0).
  rewrite (out_size_same (width x) k1 s1 p1 Hw Hs1 Hk1).
  reflexivity.
Qed.

(** A convolution of stride one whose padding makes up for its kernel
    keeps the spatial size. *)
Lemma conv_forward_keep (cin cout k0 k1 p0 p1 g : nat) (b : bool)
  (x : shape) :
  channels x = cin ->
  1 <= height x -> 1 <= width x ->
  k0 = 2 * p0 + 1 -> k1 = 2 * p1 + 1 ->
  layer_forward training (Conv2d cin cout (k0, k1) (1, 1) (p0, p1) g b) x
    = Done (Shape (batch x) cout (height x) (width x)).
Proof.
  intros Hc Hh Hw Hk0 Hk1.
  rewrite (conv_forward cin cout k0 k1 1 1 p0 p1 g b x) by (assumption || lia).
  now rewrite !reduced_stride1.
Qed.

Lemma pool_forward (k0 k1 s0 s1 p0 p1 : nat) (x : shape) :
  1 <= height x -> 1 <= width x -> 1 <= s0 -> 1 <= s1 ->
  k0 = 2 * p0 + 1 -> k1 = 2 * p1 + 1 ->
  layer_forward training (AvgPool2d (k0, k1) (s0, s1) (p0, p1)) x
    = Done (Shape (batch x) (channels x) (reduced (height x) s0)
              (reduced (width x) s1)).
Proof.
  intros Hh Hw Hs0 Hs1 Hk0 Hk1. cbn [layer_forward fst snd].
  destruct (Nat.ltb_spec k0 (2 * p0)) as [E|_]; [lia|].
  destruct (Nat.ltb_spec k1 (2 * p1)) as [E|_]; [lia|].
  cbn [orb].
  rewrite (out_size_same (height x) k0 s0 p0 Hh Hs0 Hk0).
  rewrite (out_size_same (width x) k1 s1 p1 Hw Hs1 Hk1).
  reflexivity.
Qed.

Lemma relu_forward (x : shape) : layer_forward training ReLU x = Done x.
Proof. reflexivity. Qed.

Lemma add_shapes_same (x : shape) : add_shapes x x = Done x.
Proof.
  unfold add_shapes, broadcast_dim. rewrite !Nat.eqb_refl. cbn [obind].
  now destruct x.
Qed.

End Layers.

(** One layer of a [nn.Sequential], on a shape that fits it. *)
Ltac side :=
  cbn [batch channels height width];
  first [assumption | reflexivity | apply reduced_pos | lia].

Ltac layer_step :=
  first [ rewrite relu_forward
        | rewrite bn_forward by side
        | rewrite conv_forward_keep by side
        | rewrite conv_forward by side
        | rewrite pool_forward by side ];
  cbn [obind].

(** More than one value per channel at the reduced size implies as much at
    the full size. *)
Lemma many_values_full (N H W s0 s1 : nat) :
  N * reduced H s0 * reduced W s1 <> 1 -> N * H * W <> 1.
Proof.
  intros Hr E. apply Hr.
  assert (N = 1 /\ H = 1 /\ W = 1) as [-> [-> ->]].
  { destruct N as [|[|N]], H as [|[|H]], W as [|[|W]]; simpl in E;
      try lia; auto. }
  now rewrite !reduced_one.
Qed.

(** What [Block.__init__] has done when it returns. *)
Lemma Block_init_done (e i p s0 s1 : nat) (ds : option (list layer)) :
  Block_init e i p (s0, s1) = Done ds ->
  1 <= s0 /\ 1 <= s1
  /\ ((ds = None /\ s0 = 1 /\ s1 = 1 /\ i = p * e)
      \/ (ds = Some [Conv2d i (p * e) (1, 1) (s0, s1) (0, 0) 1 false;
                     BatchNorm2d (p * e)]
          /\ ~ (s0 = 1 /\ s1 = 1 /\ i = p * e))).
Proof.
  unfold Block_init. cbn [fst snd].
  destruct (Nat.ltb_spec 0 s0) as [H0|H0]; cbn [andb negb];
    [|discriminate].
  destruct (Nat.ltb_spec 0 s1) as [H1|H1]; cbn [negb]; [|discriminate].
  destruct (Nat.ltb_spec 1 s0) as [G0|G0]; cbn [orb].
  { rewrite new_Conv2d_ungrouped. cbn [obind]. intros E. injection E as <-.
    repeat split; try lia. right. split; [reflexivity | lia]. }
  destruct (Nat.ltb_spec 1 s1) as [G1|G1]; cbn [orb].
  { rewrite new_Conv2d_ungrouped. cbn [obind]. intros E. injection E as <-.
    repeat split; try lia. right. split; [reflexivity | lia]. }
  destruct (Nat.eqb_spec i (p * e)) as [E|E]; cbn [negb].
  - intros D. injection D as <-. repeat split; try lia. left.
    repeat split; lia.
  - rewrite new_Conv2d_ungrouped. cbn [obind]. intros D. injection D as <-.
    repeat split; try lia. right. split; [reflexivity | tauto].
Qed.

End BlocksFacts.

(** ** Properties of the encoder blocks *)

Module BlocksShapes.

Import Blocks BlocksFacts.
Local Open Scope outcome_scope.
Local Open Scope nat_scope.

Lemma odd_half (k p : nat) :
  (negb (k mod 2 =? 0) && ((k - 1) / 2 =? p)) = true <-> k = 2 * p + 1.
Proof.
  rewrite andb_true_iff, negb_true_iff, Nat.eqb_neq, Nat.eqb_eq.
  pose proof (Nat.div_mod_eq k 2) as D.
  pose proof (Nat.mod_upper_bound k 2 ltac:(lia)) as U.
  split.
  - intros [Hodd Hp].
    assert (E : k - 1 = k / 2 * 2) by lia.
    rewrite E, Nat.div_mul in Hp by lia. lia.
  - intros ->. split.
    + rewrite Nat.add_comm, Nat.mul_comm, Nat.Div0.mod_add. cbn. lia.
    + replace (2 * p + 1 - 1) with (p * 2) by lia.
      apply Nat.div_mul. lia.
Qed.

Lemma odd_half_both (k0 k1 p0 p1 : nat) :
  ~ ((negb (k0 mod 2 =? 0) && ((k0 - 1) / 2 =? p0)) = false
     \/ (negb (k1 mod 2 =? 0) && ((k1 - 1) / 2 =? p1)) = false) ->
  k0 = 2 * p0 + 1 /\ k1 = 2 * p1 + 1.
Proof.
  intros H. split; apply odd_half.
  - destruct (negb (k0 mod 2 =? 0) && ((k0 - 1) / 2 =? p0)); tauto.
  - destruct (negb (k1 mod 2 =? 0) && ((k1 - 1) / 2 =? p1)); tauto.
Qed.

(** The record a successful [CotAttention(...)] builds. *)
Definition cot_layers (d_model d_hidden k0 k1 s0 s1 p0 p1 : nat)
  : CotAttention :=
  {| cot_alpha := k0 * k1;
     key_mapping := [Conv2d d_model d_model (k0, k1) (1, 1) (p0, p1) 1 false;
                     BatchNorm2d d_model; ReLU];
     val_mapping := [Conv2d d_model d_model (1, 1) (1, 1) (0, 0) 1 false;
                     BatchNorm2d d_model];
     atn_mapping := [Conv2d (2 * d_model) d_hidden (1, 1) (1, 1) (0, 0) 1 false;
                     BatchNorm2d d_hidden; ReLU;
                     Conv2d d_hidden (d_model * (k0 * k1)) (1, 1) (1, 1) (0, 0)
                       1 true];
     cot_downsample := if (1 <? s0) || (1 <? s1)
                       then Some (AvgPool2d (k0, k1) (s0, s1) (p0, p1))
                       else None |}.

Lemma new_CotAttention_ok (d_model d_hidden k0 k1 s0 s1 p0 p1 : nat) :
  k0 = 2 * p0 + 1 -> k1 = 2 * p1 + 1 ->
  new_CotAttention d_model d_hidden (k0, k1) (s0, s1) (p0, p1)
  = Done (cot_layers d_model d_hidden k0 k1 s0 s1 p0 p1).
Proof.
  intros H0 H1. unfold new_CotAttention. cbn [fst snd].
  apply odd_half in H0, H1. rewrite H0, H1. cbn [negb].
  rewrite !new_Conv2d_ungrouped. reflexivity.
Qed.

(** X15: [CotAttention(...)] is built exactly when, in each direction, the
    kernel size is odd and the padding is half the kernel size rounded down
    (kernel = 2 * padding + 1); any other kernel and padding fail its
    assertions. *)
Theorem new_CotAttention_same_padding
  (d_model d_hidden k0 k1 s0 s1 p0 p1 : nat) :
  (1 <= d_model -> 1 <= d_hidden ->
   k0 = 2 * p0 + 1 /\ k1 = 2 * p1 + 1 ->
   new_CotAttention d_model d_hidden (k0, k1) (s0, s1) (p0, p1)
   = Done (cot_layers d_model d_hidden k0 k1 s0 s1 p0 p1))
  /\ (~ (k0 = 2 * p0 + 1 /\ k1 = 2 * p1 + 1) ->
      new_CotAttention d_model d_hidden (k0, k1) (s0, s1) (p0, p1)
      = Fails AssertionError).
Proof.
  unfold new_CotAttention. cbn [fst snd].
  pose proof (odd_half k0 p0) as O0. pose proof (odd_half k1 p1) as O1.
  destruct (negb (k0 mod 2 =? 0) && ((k0 - 1) / 2 =? p0)) eqn:E0;
    destruct (negb (k1 mod 2 =? 0) && ((k1 - 1) / 2 =? p1)) eqn:E1;
    cbn [negb]; rewrite ?new_Conv2d_ungrouped; cbn [obind]; split;
    try intros _ _; intros H; try reflexivity.
  - destruct H. split; [now apply O0 | now apply O1].
  - destruct H as [_ H1]. apply O1 in H1. discriminate.
  - destruct H as [H0 _]. apply O0 in H0. discriminate.
  - destruct H as [H0 _]. apply O0 in H0. discriminate.
Qed.

Lemma new_CotAttention_same_padding_witness :
  new_CotAttention 32 32 (3, 3) (2, 2) (1, 1)
  = Done (cot_layers 32 32 3 3 2 2 1 1).
Proof.
  apply (proj1 (new_CotAttention_same_padding 32 32 3 3 2 2 1 1)).
  - lia.
  - lia.
  - split; reflexivity.
Defined.

Section CotForward.

Variable training : bool.

Lemma mul_mod_zero (a b : nat) : (a * b) mod a = 0.
Proof. rewrite Nat.mul_comm. apply Nat.Div0.mod_mul. Qed.

Lemma cot_forward_ok
  (d_model d_hidden k0 k1 s0 s1 p0 p1 N H W : nat) :
  k0 = 2 * p0 + 1 -> k1 = 2 * p1 + 1 ->
  1 <= s0 -> 1 <= s1 ->
  1 <= d_model -> 1 <= N -> 1 <= H -> 1 <= W ->
  (training = true -> N * reduced H s0 * reduced W s1 <> 1) ->
  cot_forward training (cot_layers d_model d_hidden k0 k1 s0 s1 p0 p1)
    (Shape N d_model H W)
  = Done (Shape N d_model (reduced H s0) (reduced W s1)).
Proof.
  intros Hk0 Hk1 Hs0 Hs1 Hd HN HH HW Ht.
  unfold cot_forward, cot_layers.
  cbn [cot_downsample key_mapping val_mapping atn_mapping cot_alpha].
  (* the pooling, or the input as it is when the stride is one *)
  assert (Hx : call (option_map (layer_forward training)
                       (if (1 <? s0) || (1 <? s1)
                        then Some (AvgPool2d (k0, k1) (s0, s1) (p0, p1))
                        else None)) (Shape N d_model H W)
               = Done (Shape N d_model (reduced H s0) (reduced W s1))).
  { destruct ((1 <? s0) || (1 <? s1)) eqn:E; cbn [option_map call].
    - now rewrite pool_forward by (cbn; assumption).
    - apply orb_false_iff in E. destruct E as [E0 E1].
      apply Nat.ltb_ge in E0, E1.
      assert (s0 = 1) by lia. assert (s1 = 1) by lia. subst s0 s1.
      now rewrite !reduced_stride1. }
  rewrite Hx. cbn [obind].
  set (h := reduced H s0) in *. set (w := reduced W s1) in *.
  assert (Hh : 1 <= h) by apply reduced_pos.
  assert (Hw : 1 <= w) by apply reduced_pos.
  cbn [layers_forward].
  (* key_mapping *)
  do 3 layer_step.
  (* val_mapping *)
  do 2 layer_step.
  unfold numel. cbn [batch channels height width].
  (* val.view *)
  assert (Hnd : N * d_model <> 0) by nia.
  destruct (Nat.eqb_spec (N * d_model) 0) as [E|_]; [contradiction|].
  replace (N * d_model * h * w) with (N * d_model * (h * w)) by ring.
  rewrite mul_mod_zero. cbn [Nat.eqb negb obind].
  replace (N * d_model * (h * w) / (N * d_model)) with (h * w)
    by (rewrite (Nat.mul_comm (N * d_model)); now rewrite Nat.div_mul).
  (* torch.cat *)
  rewrite !Nat.eqb_refl. cbn [andb obind].
  replace (d_model + d_model) with (2 * d_model) by lia.
  (* atn_mapping *)
  do 4 layer_step.
  unfold numel. cbn [batch channels height width].
  (* the views of atn, the product and the view of k_2 *)
  replace (N * (d_model * (k0 * k1)) * h * w)
    with (N * d_model * (k0 * k1) * h * w) by ring.
  rewrite Nat.eqb_refl. cbn [obind].
  unfold broadcast_dim at 1. rewrite Nat.eqb_refl. cbn [obind].
  rewrite Nat.eqb_refl. cbn [obind].
  apply add_shapes_same.
Qed.

(** X16: [CotAttention.forward] keeps the channel count of an input of
    [d_model] channels and reduces each spatial size by the stride; every
    [view], the concatenation and the final sum fit. *)
Theorem cot_forward_shape
  (d_model d_hidden k0 k1 s0 s1 p0 p1 N H W : nat) (m : CotAttention) :
  new_CotAttention d_model d_hidden (k0, k1) (s0, s1) (p0, p1) = Done m ->
  1 <= s0 -> 1 <= s1 ->
  1 <= d_model -> 1 <= d_hidden -> 1 <= N -> 1 <= H -> 1 <= W ->
  (training = true -> N * reduced H s0 * reduced W s1 <> 1) ->
  cot_forward training m (Shape N d_model H W)
  = Done (Shape N d_model (reduced H s0) (reduced W s1)).
Proof.
  intros Hm Hs0 Hs1 Hd _ HN HH HW Ht.
  assert (Hk : k0 = 2 * p0 + 1 /\ k1 = 2 * p1 + 1).
  { apply odd_half_both. intros [E|E]; unfold new_CotAttention in Hm;
      cbn [fst snd] in Hm; rewrite E in Hm; cbn [negb] in Hm;
      [discriminate|].
    destruct (negb (k0 mod 2 =? 0) && ((k0 - 1) / 2 =? p0));
      discriminate. }
  destruct Hk as [Hk0 Hk1].
  rewrite (new_CotAttention_ok d_model d_hidden k0 k1 s0 s1 p0 p1 Hk0 Hk1)
    in Hm.
  injection Hm as <-. now apply cot_forward_ok.
Qed.

End CotForward.

(** The shortcut a block gets from [Block.__init__]. *)
Definition shortcut (e i p s0 s1 : nat) : option (list layer) :=
  if (1 <? s0) || (1 <? s1) || negb (i =? p * e)
  then Some [Conv2d i (p * e) (1, 1) (s0, s1) (0, 0) 1 false;
             BatchNorm2d (p * e)]
  else None.

(** The [nn.Sequential] a block class builds. *)
Definition block_net (c : block_class) (i p s0 s1 : nat) : list module :=
  match c with
  | BasicBlock =>
      [Layer (BatchNorm2d i); Layer ReLU;
       Layer (Conv2d i p (3, 3) (s0, s1) (1, 1) 1 true);
       Layer (BatchNorm2d p); Layer ReLU;
       Layer (Conv2d p (p * 1) (3, 3) (1, 1) (1, 1) 1 true)]
  | Bottleneck =>
      [Layer (BatchNorm2d i); Layer ReLU;
       Layer (Conv2d i p (1, 1) (1, 1) (0, 0) 1 true);
       Layer (BatchNorm2d p); Layer ReLU;
       Layer (Conv2d p p (3, 3) (s0, s1) (1, 1) 1 true);
       Layer (BatchNorm2d p); Layer ReLU;
       Layer (Conv2d p (p * 4) (1, 1) (1, 1) (0, 0) 1 true)]
  | BottleneckX =>
      [Layer (BatchNorm2d i); Layer ReLU;
       Layer (Conv2d i p (1, 1) (1, 1) (0, 0) 1 true);
       Layer (BatchNorm2d p); Layer ReLU;
       Layer (Conv2d p p (3, 3) (s0, s1) (1, 1) 32 true);
       Layer (BatchNorm2d p); Layer ReLU;
       Layer (Conv2d p (p * 2) (1, 1) (1, 1) (0, 0) 1 true)]
  | ContextualBlock =>
      [Layer (BatchNorm2d i); Layer ReLU;
       Layer (Conv2d i p (1, 1) (1, 1) (0, 0) 1 true);
       Layer (BatchNorm2d p); Layer ReLU;
       Cot (cot_layers p p 3 3 s0 s1 1 1);
       Layer (BatchNorm2d p); Layer ReLU;
       Layer (Conv2d p (p * 4) (1, 1) (1, 1) (0, 0) 1 true)]
  end.

Lemma Block_init_ok (e i p s0 s1 : nat) :
  1 <= s0 -> 1 <= s1 ->
  Block_init e i p (s0, s1) = Done (shortcut e i p s0 s1).
Proof.
  intros H0 H1. unfold Block_init, shortcut. cbn [fst snd].
  destruct (Nat.ltb_spec 0 s0) as [_|E]; [|lia].
  destruct (Nat.ltb_spec 0 s1) as [_|E]; [|lia]. cbn [andb negb].
  destruct ((1 <? s0) || (1 <? s1) || negb (i =? p * e)); [|reflexivity].
  now rewrite new_Conv2d_ungrouped.
Qed.

Lemma Block_init_assert (e i p s0 s1 : nat) :
  s0 = 0 \/ s1 = 0 ->
  Block_init e i p (s0, s1) = Fails AssertionError.
Proof.
  intros H. unfold Block_init. cbn [fst snd].
  destruct (Nat.ltb_spec 0 s0) as [E0|E0];
    destruct (Nat.ltb_spec 0 s1) as [E1|E1]; cbn [andb negb];
    try reflexivity; lia.
Qed.

Lemma new_block_assert (c : block_class) (i p s0 s1 : nat)
  (sub : option (shape -> outcome shape)) :
  s0 = 0 \/ s1 = 0 ->
  new_block c i p (s0, s1) sub = Fails AssertionError.
Proof.
  intros H. destruct c; cbn [new_block];
    unfold new_BasicBlock, new_Bottleneck, new_BottleneckX,
      new_ContextualBlock;
    now rewrite (Block_init_assert _ i p s0 s1 H).
Qed.

Lemma new_block_ok (c : block_class) (i p s0 s1 : nat)
  (sub : option (shape -> outcome shape)) :
  1 <= s0 -> 1 <= s1 ->
  (c = BottleneckX -> p mod 32 = 0) ->
  new_block c i p (s0, s1) sub
  = Done {| sub_method := sub;
            downsample := shortcut (expansion c) i p s0 s1;
            net := block_net c i p s0 s1 |}.
Proof.
  intros H0 H1 Hg. destruct c; cbn [new_block];
    unfold new_BasicBlock, new_Bottleneck, new_BottleneckX,
      new_ContextualBlock;
    rewrite (Block_init_ok _ i p s0 s1 H0 H1); cbn [obind];
    rewrite ?new_Conv2d_ungrouped; cbn [obind expansion block_net];
    try reflexivity.
  unfold new_Conv2d at 1. rewrite (Hg eq_refl). cbn [Nat.eqb negb obind].
  rewrite ?new_Conv2d_ungrouped. reflexivity.
Qed.

Lemma new_block_groups (i p s0 s1 : nat)
  (sub : option (shape -> outcome shape)) :
  1 <= s0 -> 1 <= s1 -> p mod 32 <> 0 ->
  new_block BottleneckX i p (s0, s1) sub = Fails ValueError.
Proof.
  intros H0 H1 Hg. cbn [new_block]. unfold new_BottleneckX.
  rewrite (Block_init_ok _ i p s0 s1 H0 H1). cbn [obind].
  rewrite new_Conv2d_ungrouped. cbn [obind].
  unfold new_Conv2d at 1. cbn [Nat.eqb].
  destruct (Nat.eqb_spec (p mod 32) 0) as [E|_]; [contradiction|].
  reflexivity.
Qed.

(** What a successful construction tells about its arguments. *)
Lemma new_block_done (c : block_class) (i p s0 s1 : nat)
  (sub : option (shape -> outcome shape)) (b : Block) :
  new_block c i p (s0, s1) sub = Done b ->
  1 <= s0 /\ 1 <= s1 /\ (c = BottleneckX -> p mod 32 = 0)
  /\ b = {| sub_method := sub;
            downsample := shortcut (expansion c) i p s0 s1;
            net := block_net c i p s0 s1 |}.
Proof.
  intros Hb.
  assert (H0 : 1 <= s0).
  { destruct s0; [|lia].
    rewrite new_block_assert in Hb by now left. discriminate. }
  assert (H1 : 1 <= s1).
  { destruct s1; [|lia].
    rewrite new_block_assert in Hb by now right. discriminate. }
  assert (Hg : c = BottleneckX -> p mod 32 = 0).
  { intros ->. destruct (Nat.eq_dec (p mod 32) 0) as [E|E]; [exact E|].
    rewrite new_block_groups in Hb by assumption. discriminate. }
  repeat split; try assumption.
  rewrite (new_block_ok c i p s0 s1 sub H0 H1 Hg) in Hb.
  now injection Hb as <-.
Qed.

(** X17: how the construction of a block ends.  A stride with a zero
    component fails the assertion of [Block.__init__]; with a positive
    stride, [BottleneckX] (32 groups) is rejected with [ValueError] when
    [planes] is not a multiple of 32, and every other construction
    returns. *)
Theorem new_block_outcome (c : block_class) (in_planes planes s0 s1 : nat)
  (sub : option (shape -> outcome shape)) :
  (s0 = 0 \/ s1 = 0 ->
   new_block c in_planes planes (s0, s1) sub = Fails AssertionError)
  /\ (1 <= s0 -> 1 <= s1 -> 1 <= in_planes ->
      c = BottleneckX -> planes mod 32 <> 0 ->
      new_block c in_planes planes (s0, s1) sub = Fails ValueError)
  /\ (1 <= s0 -> 1 <= s1 -> 1 <= in_planes -> 1 <= planes ->
      (c = BottleneckX -> planes mod 32 = 0) ->
      exists b, new_block c in_planes planes (s0, s1) sub = Done b).
Proof.
  split; [|split].
  - apply new_block_assert.
  - intros H0 H1 _ -> Hg. now apply new_block_groups.
  - intros H0 H1 _ _ Hg. eexists. now apply new_block_ok.
Qed.

Lemma new_block_outcome_witness :
  new_block BottleneckX 64 48 (1, 1) None = Fails ValueError
  /\ new_block BottleneckX 64 48 (0, 1) None = Fails AssertionError
  /\ exists b, new_block ContextualBlock 64 32 (2, 2) None = Done b.
Proof.
  destruct (new_block_outcome BottleneckX 64 48 1 1 None) as [_ [V _]].
  destruct (new_block_outcome BottleneckX 64 48 0 1 None) as [A _].
  destruct (new_block_outcome ContextualBlock 64 32 2 2 None) as [_ [_ D]].
  split; [|split].
  - apply V; [lia | lia | lia | reflexivity | discriminate].
  - apply A. now left.
  - apply D; [lia | lia | lia | lia | discriminate].
Defined.

(** X18: the shortcut of a block is the identity exactly when the stride
    is [(1, 1)] and the block keeps the channel count
    ([in_planes = planes * expansion]); otherwise it is a 1x1 convolution of
    the stride of the block followed by a batch norm. *)
Theorem block_shortcut_identity (c : block_class)
  (in_planes planes s0 s1 : nat) (sub : option (shape -> outcome shape))
  (b : Block) :
  1 <= in_planes -> 1 <= planes ->
  new_block c in_planes planes (s0, s1) sub = Done b ->
  (downsample b = None
   <-> s0 = 1 /\ s1 = 1 /\ in_planes = planes * expansion c)
  /\ (downsample b <> None ->
      downsample b
      = Some [Conv2d in_planes (planes * expansion c) (1, 1) (s0, s1) (0, 0)
                1 false;
              BatchNorm2d (planes * expansion c)]).
Proof.
  intros _ _ Hb.
  destruct (new_block_done c in_planes planes s0 s1 sub b Hb)
    as [H0 [H1 [_ ->]]].
  cbn [downsample]. unfold shortcut.
  destruct (Nat.ltb_spec 1 s0) as [G0|G0];
    destruct (Nat.ltb_spec 1 s1) as [G1|G1];
    destruct (Nat.eqb_spec in_planes (planes * expansion c)) as [E|E];
    cbn [orb negb]; split; try (intros; reflexivity);
    try (split; [discriminate | lia]);
    try (intros N; now destruct N).
  split; [intros _; repeat split; lia | reflexivity].
Qed.

Section BlockForward.

Variable training : bool.

Lemma net_forward_ok (c : block_class) (i p s0 s1 N H W : nat) :
  1 <= s0 -> 1 <= s1 -> 1 <= p -> 1 <= N -> 1 <= H -> 1 <= W ->
  (training = true -> N * reduced H s0 * reduced W s1 <> 1) ->
  net_forward training (block_net c i p s0 s1) (Shape N i H W)
  = Done (Shape N (p * expansion c) (reduced H s0) (reduced W s1)).
Proof.
  intros H0 H1 Hp HN HH HW Ht.
  assert (Hfull : training = true -> N * H * W <> 1).
  { intros T. apply (many_values_full N H W s0 s1). now apply Ht. }
  destruct c; cbn [block_net net_forward module_forward expansion].
  - do 6 layer_step. reflexivity.
  - do 9 layer_step. reflexivity.
  - do 9 layer_step. reflexivity.
  - do 5 layer_step.
    rewrite cot_forward_ok by (assumption || reflexivity). cbn [obind].
    do 3 layer_step. reflexivity.
Qed.

Lemma shortcut_forward (e i p s0 s1 N H W : nat) :
  1 <= s0 -> 1 <= s1 -> 1 <= H -> 1 <= W ->
  (training = true -> N * reduced H s0 * reduced W s1 <> 1) ->
  call (option_map (layers_forward training) (shortcut e i p s0 s1))
    (Shape N i H W)
  = Done (Shape N (p * e) (reduced H s0) (reduced W s1)).
Proof.
  intros H0 H1 HH HW Ht. unfold shortcut.
  destruct ((1 <? s0) || (1 <? s1) || negb (i =? p * e)) eqn:E;
    cbn [option_map call layers_forward].
  - do 2 layer_step. reflexivity.
  - apply orb_false_iff in E. destruct E as [E Ei].
    apply orb_false_iff in E. destruct E as [E0 E1].
    apply Nat.ltb_ge in E0, E1. apply negb_false_iff, Nat.eqb_eq in Ei.
    assert (s0 = 1) by lia. assert (s1 = 1) by lia. subst s0 s1 i.
    now rewrite !reduced_stride1.
Qed.

Lemma forward_ok (c : block_class) (i p s0 s1 N H W : nat)
  (sub : option (shape -> outcome shape)) :
  1 <= s0 -> 1 <= s1 -> 1 <= p -> 1 <= N -> 1 <= H -> 1 <= W ->
  (training = true -> N * reduced H s0 * reduced W s1 <> 1) ->
  call sub (Shape N (p * expansion c) (reduced H s0) (reduced W s1))
    = Done (Shape N (p * expansion c) (reduced H s0) (reduced W s1)) ->
  forward training
    {| sub_method := sub;
       downsample := shortcut (expansion c) i p s0 s1;
       net := block_net c i p s0 s1 |} (Shape N i H W)
  = Done (Shape N (p * expansion c) (reduced H s0) (reduced W s1)).
Proof.
  intros H0 H1 Hp HN HH HW Ht Hsub. unfold forward.
  cbn [net sub_method downsample].
  rewrite net_forward_ok by assumption. cbn [obind].
  rewrite Hsub. cbn [obind].
  rewrite shortcut_forward by assumption. cbn [obind].
  apply add_shapes_same.
Qed.

(** X19: the two branches of a block agree.  For a block of any class
    built with [planes >= 1], an input of [in_planes] channels and
    non-empty size, and a [sub] that is absent or keeps the shape,
    [forward] returns the shape
    [(N, planes * expansion, (H-1)/s0 + 1, (W-1)/s1 + 1)]: the main branch
    and the shortcut end in the same shape and their sum is defined (in
    training mode the batch norms need more than one value per channel at
    the reduced size). *)
Theorem block_forward_shape (c : block_class)
  (in_planes planes s0 s1 N H W : nat)
  (sub : option (shape -> outcome shape)) (b : Block) :
  new_block c in_planes planes (s0, s1) sub = Done b ->
  1 <= in_planes -> 1 <= planes -> 1 <= N -> 1 <= H -> 1 <= W ->
  (training = true -> N * reduced H s0 * reduced W s1 <> 1) ->
  call sub (Shape N (planes * expansion c) (reduced H s0) (reduced W s1))
    = Done (Shape N (planes * expansion c) (reduced H s0) (reduced W s1)) ->
  forward training b (Shape N in_planes H W)
  = Done (Shape N (planes * expansion c) (reduced H s0) (reduced W s1)).
Proof.
  intros Hb _ Hp HN HH HW Ht Hsub.
  destruct (new_block_done c in_planes planes s0 s1 sub b Hb)
    as [H0 [H1 [_ ->]]].
  now apply forward_ok.
Qed.

(** X20: a block refuses an input whose channel count is not
    [in_planes]: its first layer, a batch norm over [in_planes] channels,
    raises (the input having more than one value per channel when in
    training mode). *)
Theorem block_forward_wrong_channels (c : block_class)
  (in_planes planes s0 s1 N C H W : nat)
  (sub : option (shape -> outcome shape)) (b : Block) :
  new_block c in_planes planes (s0, s1) sub = Done b ->
  1 <= in_planes -> 1 <= planes ->
  C <> in_planes ->
  (training = true -> N * H * W <> 1) ->
  forward training b (Shape N C H W) = Fails ShapeError.
Proof.
  intros Hb _ _ HC Ht.
  destruct (new_block_done c in_planes planes s0 s1 sub b Hb)
    as [_ [_ [_ ->]]].
  unfold forward. cbn [net].
  assert (E : layer_forward training (BatchNorm2d in_planes) (Shape N C H W)
              = Fails ShapeError).
  { cbn [layer_forward batch channels height width].
    destruct (Nat.eqb_spec C in_planes) as [E|_]; [contradiction|].
    destruct training; [|reflexivity].
    destruct (Nat.eqb_spec (N * H * W) 1) as [E|_];
      [now destruct (Ht eq_refl) | reflexivity]. }
  destruct c; cbn [block_net net_forward module_forward]; now rewrite E.
Qed.

Lemma more_blocks_ok (n : nat) (c : block_class) (p : nat)
  (sub : option (shape -> outcome shape)) :
  (c = BottleneckX -> p mod 32 = 0) ->
  more_blocks n c p sub
  = Done (repeat {| sub_method := sub;
                    downsample := None;
                    net := block_net c (p * expansion c) p 1 1 |} n).
Proof.
  intros Hg. induction n as [|n IH]; [reflexivity|].
  cbn [more_blocks repeat].
  rewrite (new_block_ok c (p * expansion c) p 1 1 sub) by (lia || assumption).
  cbn [obind]. rewrite IH. cbn [obind].
  unfold shortcut. rewrite Nat.eqb_refl. reflexivity.
Qed.

Lemma shortcut_none (e p : nat) : shortcut e (p * e) p 1 1 = None.
Proof. unfold shortcut. now rewrite Nat.eqb_refl. Qed.

Lemma repeat_forward (n : nat) (c : block_class) (p N H W : nat)
  (sub : option (shape -> outcome shape)) :
  1 <= p -> 1 <= N -> 1 <= H -> 1 <= W ->
  (training = true -> N * H * W <> 1) ->
  call sub (Shape N (p * expansion c) H W)
    = Done (Shape N (p * expansion c) H W) ->
  blocks_forward training
    (repeat {| sub_method := sub;
               downsample := None;
               net := block_net c (p * expansion c) p 1 1 |} n)
    (Shape N (p * expansion c) H W)
  = Done (Shape N (p * expansion c) H W).
Proof.
  intros Hp HN HH HW Ht Hsub. induction n as [|n IH]; [reflexivity|].
  cbn [repeat blocks_forward].
  rewrite <- (shortcut_none (expansion c) p) at 1.
  rewrite forward_ok; try assumption; try lia;
    rewrite ?reduced_stride1 by assumption; assumption.
Qed.

(** X21: [make_layer] builds [max(layers, 1)] blocks, of which all but the
    first have the identity shortcut; an input of [in_planes] channels goes
    through the whole sequence, and only the first block changes the
    shape: the result has the shape
    [(N, planes * expansion, (H-1)/s0 + 1, (W-1)/s1 + 1)]. *)
Theorem make_layer_shape (layers : nat) (c : block_class)
  (in_planes planes s0 s1 N H W : nat)
  (sub : option (shape -> outcome shape)) (bs : list Block) :
  make_layer layers c in_planes planes (s0, s1) sub = Done bs ->
  1 <= in_planes -> 1 <= planes -> 1 <= N -> 1 <= H -> 1 <= W ->
  (training = true -> N * reduced H s0 * reduced W s1 <> 1) ->
  call sub (Shape N (planes * expansion c) (reduced H s0) (reduced W s1))
    = Done (Shape N (planes * expansion c) (reduced H s0) (reduced W s1)) ->
  length bs = Nat.max layers 1
  /\ Forall (fun b => downsample b = None) (tl bs)
  /\ blocks_forward training bs (Shape N in_planes H W)
     = Done (Shape N (planes * expansion c) (reduced H s0) (reduced W s1)).
Proof.
  intros Hbs _ Hp HN HH HW Ht Hsub. unfold make_layer in Hbs.
  destruct (new_block c in_planes planes (s0, s1) sub) as [b|e] eqn:Hb;
    [|discriminate].
  destruct (new_block_done c in_planes planes s0 s1 sub b Hb)
    as [H0 [H1 [Hg ->]]].
  cbn [obind] in Hbs. rewrite (more_blocks_ok _ c planes sub Hg) in Hbs.
  cbn [obind] in Hbs. injection Hbs as <-.
  split; [|split].
  - cbn [length]. rewrite repeat_length. lia.
  - cbn [tl]. apply Forall_forall. intros b Hin.
    apply repeat_spec in Hin. now subst b.
  - cbn [blocks_forward]. rewrite forward_ok by assumption. cbn [obind].
    apply repeat_forward; try assumption; apply reduced_pos.
Qed.

End BlockForward.

Lemma block_shortcut_identity_witness :
  exists b, new_block Bottleneck 128 32 (1, 1) None = Done b
            /\ downsample b = None.
Proof.
  assert (Hb : new_block Bottleneck 128 32 (1, 1) None
               = Done {| sub_method := None;
                         downsample := shortcut 4 128 32 1 1;
                         net := block_net Bottleneck 128 32 1 1 |}).
  { apply new_block_ok; [lia | lia | discriminate]. }
  eexists. split; [exact Hb|].
  apply (proj1 (block_shortcut_identity Bottleneck 128 32 1 1 None _
                  ltac:(lia) ltac:(lia) Hb)).
  repeat split.
Defined.

(** The example at the end of the file: [ContextualBlock(64, 32, (2, 2))]
    on a tensor of shape [(10, 64, 56, 56)]. *)
Lemma example_block :
  new_block ContextualBlock 64 32 (2, 2) None
  = Done {| sub_method := None;
            downsample := shortcut 4 64 32 2 2;
            net := block_net ContextualBlock 64 32 2 2 |}.
Proof. apply new_block_ok; [lia | lia | discriminate]. Qed.

Lemma reduced_56 : reduced 56 2 = 28.
Proof. reflexivity. Qed.

Lemma block_forward_shape_witness :
  forward true {| sub_method := None;
                  downsample := shortcut 4 64 32 2 2;
                  net := block_net ContextualBlock 64 32 2 2 |}
    (Shape 10 64 56 56)
  = Done (Shape 10 (32 * 4) (reduced 56 2) (reduced 56 2)).
Proof.
  apply (block_forward_shape true ContextualBlock 64 32 2 2 10 56 56 None _
           example_block).
  - lia.
  - lia.
  - lia.
  - lia.
  - lia.
  - intros _. rewrite reduced_56. discriminate.
  - reflexivity.
Defined.

Lemma block_forward_wrong_channels_witness :
  forward true {| sub_method := None;
                  downsample := shortcut 4 64 32 2 2;
                  net := block_net ContextualBlock 64 32 2 2 |}
    (Shape 10 3 56 56)
  = Fails ShapeError.
Proof.
  apply (block_forward_wrong_channels true ContextualBlock 64 32 2 2 10 3 56 56
           None _ example_block).
  - lia.
  - lia.
  - discriminate.
  - intros _. discriminate.
Defined.

Lemma cot_forward_shape_witness :
  cot_forward true (cot_layers 32 32 3 3 2 2 1 1) (Shape 10 32 56 56)
  = Done (Shape 10 32 (reduced 56 2) (reduced 56 2)).
Proof.
  apply (cot_forward_shape true 32 32 3 3 2 2 1 1 10 56 56).
  - apply new_CotAttention_ok; reflexivity.
  - lia.
  - lia.
  - lia.
  - lia.
  - lia.
  - lia.
  - lia.
  - intros _. rewrite reduced_56. discriminate.
Defined.

Lemma make_layer_shape_witness :
  exists bs,
    make_layer 3 ContextualBlock 64 32 (2, 2) None = Done bs
    /\ length bs = Nat.max 3 1
    /\ Forall (fun b => downsample b = None) (tl bs)
    /\ blocks_forward true bs (Shape 10 64 56 56)
       = Done (Shape 10 (32 * 4) (reduced 56 2) (reduced 56 2)).
Proof.
  assert (Hbs : exists bs,
             make_layer 3 ContextualBlock 64 32 (2, 2) None = Done bs).
  { unfold make_layer. rewrite example_block. cbn [obind].
    rewrite more_blocks_ok by discriminate. cbn [obind]. eexists.
    reflexivity. }
  destruct Hbs as [bs Hbs]. exists bs. split; [exact Hbs|].
  apply (make_layer_shape true 3 ContextualBlock 64 32 2 2 10 56 56 None bs
           Hbs).
  - lia.
  - lia.
  - lia.
  - lia.
  - lia.
  - intros _. rewrite reduced_56. discriminate.
  - reflexivity.
Defined.

End BlocksShapes.
